(** * The Coursera catalogue scraper ([coursera/coursera_scraper.js])

    A shallow embedding of the scraper's field extractors, record builder,
    scroll loop and CSV exporter, with the properties of its specification
    stated and settled against it. *)

From Stdlib Require Import ZArith NArith List Ascii String Lia SpecFloat.
From stdpp Require Import base decidable option list sorting gmap.

Open Scope N_scope.

(** ** JavaScript strings

    A string is its sequence of UTF-16 code units.  Literals of the source
    that are plain ASCII are written [js "..."]; other code units are given
    by number. *)

Module JsString.

Abbreviation jsstring := (list N).

Definition js (s : string) : jsstring :=
  N_of_ascii <$> list_ascii_of_string s.

(** [WhiteSpace] and [LineTerminator] code units, the ones [trim] removes. *)
Definition isWhiteSpace (c : N) : bool :=
  bool_decide (c ∈ [9; 10; 11; 12; 13; 32; 160; 5760; 8232; 8233; 8239; 8287;
                    12288; 65279])
  || ((8192 <=? c) && (c <=? 8202)).

Definition isDigit (c : N) : bool := (48 <=? c) && (c <=? 57).

Fixpoint trimStart (s : jsstring) : jsstring :=
  match s with
  | c :: s' => if isWhiteSpace c then trimStart s' else s
  | [] => []
  end.

Definition trimEnd (s : jsstring) : jsstring :=
  reverse (trimStart (reverse s)).

Definition trim (s : jsstring) : jsstring := trimEnd (trimStart s).

(** The longest prefix whose code units all satisfy [f], and the rest. *)
Fixpoint span (f : N → bool) (s : jsstring) : jsstring * jsstring :=
  match s with
  | c :: s' => if f c then let (a, b) := span f s' in (c :: a, b) else ([], s)
  | [] => ([], [])
  end.

(** [s.startsWith(p)] *)
Fixpoint startsWith (p s : jsstring) : bool :=
  match p, s with
  | [], _ => true
  | a :: p', b :: s' => (a =? b) && startsWith p' s'
  | _ :: _, [] => false
  end.

(** [s.slice(n)] for [0 <= n]. *)
Definition slice (n : nat) (s : jsstring) : jsstring := drop n s.

(** [s.includes(p)] *)
Fixpoint includes (p s : jsstring) : bool :=
  startsWith p s ||
  match s with
  | [] => false
  | _ :: s' => includes p s'
  end.

(** [s.split(sep)] for a non-empty separator: [cur] is the piece being read,
    [skip] the number of code units of a separator still to be passed. *)
Fixpoint split_from (sep : jsstring) (skip : nat) (cur s : jsstring)
  : list jsstring :=
  match s with
  | [] => [cur]
  | c :: s' =>
      match skip with
      | S k => split_from sep k cur s'
      | O =>
          if startsWith sep s
          then cur :: split_from sep (length sep - 1) [] s'
          else split_from sep 0 (cur ++ [c]) s'
      end
  end.

Definition split (sep s : jsstring) : list jsstring := split_from sep 0 [] s.

(** [s.replace(pat, rep)] with a string pattern: the first occurrence only. *)
Fixpoint replace (pat rep s : jsstring) : jsstring :=
  if startsWith pat s then rep ++ drop (length pat) s
  else match s with
       | [] => []
       | c :: s' => c :: replace pat rep s'
       end.

(** [s.toLowerCase()] on the letters A to Z; other code units are kept. *)
Definition lowerUnit (c : N) : N :=
  if (65 <=? c) && (c <=? 90) then c + 32 else c.

Definition toLowerCase (s : jsstring) : jsstring := lowerUnit <$> s.

(** The default order of [Array.prototype.sort]: code unit by code unit,
    a proper prefix first. *)
Fixpoint leb (a b : jsstring) : bool :=
  match a, b with
  | [], _ => true
  | _ :: _, [] => false
  | x :: a', y :: b' => (x <? y) || ((x =? y) && leb a' b')
  end.

Definition le (a b : jsstring) : Prop := leb a b = true.

#[global] Instance le_dec a b : Decision (le a b).
Proof. unfold le. apply _. Defined.

(** A string is trimmed when it neither starts nor ends with white space. *)
Definition trimmed (s : jsstring) : Prop :=
  (∀ c, head s = Some c → isWhiteSpace c = false) ∧
  (∀ c, last s = Some c → isWhiteSpace c = false).

End JsString.

Import JsString.

(** ** JavaScript numbers

    A number is an IEEE 754 binary64 value; the arithmetic is the
    specification of binary64 of the Standard Library, rounding to nearest,
    ties to even. *)

Module Number.

Definition prec : Z := 53.
Definition emax : Z := 1024.

Abbreviation double := spec_float.

(** The double nearest to an integer: what a numeric literal denotes. *)
Definition ofZ (z : Z) : double := binary_normalize prec emax z 0 false.

Definition mul : double → double → double := SFmul prec emax.

(** The double nearest to [n / d], for [n] and [d] non-negative integers. *)
Definition ofRatio (n d : Z) : double :=
  match n, d with
  | Z.pos p, Z.pos q =>
      SFdiv prec emax (S754_finite false p 0) (S754_finite false q 0)
  | _, _ => S754_zero false
  end.

(** What [Math.floor] and [parseInt] return: a double with an integral
    value, given by that integer, or an infinity or NaN.  (The sign of a
    zero is not kept.) *)
Inductive number :=
| Int (z : Z)
| Infinity (negative : bool)
| NaN.

#[global] Instance number_eq_dec : EqDecision number.
Proof. solve_decision. Defined.

(** [Math.floor(x)] *)
Definition floor (x : double) : number :=
  match x with
  | S754_zero _ => Int 0
  | S754_infinity s => Infinity s
  | S754_nan => NaN
  | S754_finite s m e =>
      let z := if s then Z.neg m else Z.pos m in
      Int (match e with
           | Z.neg k => Z.shiftr z (Z.pos k)
           | _ => Z.shiftl z e
           end)
  end.

Definition digitValue (c : N) : Z := Z.of_N (c - 48).

(** The integer a run of decimal digits denotes. *)
Definition decimal (ds : jsstring) : Z :=
  foldl (λ acc c, 10 * acc + digitValue c)%Z 0%Z ds.

(** [parseFloat(s)] on the strings the scraper gives it: an unsigned run of
    digits with an optional fraction, read up to the first code unit that
    does not continue it.  The result is the double nearest to the decimal
    value.  Signs, exponents and the literal Infinity are not modelled. *)
Definition parseFloat (s : jsstring) : double :=
  let (ip, r) := span isDigit s in
  let fp := match r with
            | 46 :: r' => fst (span isDigit r')
            | _ => []
            end in
  match ip with
  | [] => S754_nan
  | _ => ofRatio (decimal (ip ++ fp)) (10 ^ Z.of_nat (length fp))
  end.

(** [parseInt(s, 10)] on a string that starts with a run of digits: the
    double nearest to the integer the run denotes. *)
Definition parseInt (s : jsstring) : number :=
  match fst (span isDigit s) with
  | [] => NaN
  | ds => floor (ofZ (decimal ds))
  end.

End Number.

Import Number.

(** ** Values and completions *)

Module Js.

(** The values the scraper passes around. *)
Inductive value :=
| VUndefined
| VString (s : jsstring)
| VNumber (n : number).

#[global] Instance value_eq_dec : EqDecision value.
Proof. solve_decision. Defined.

(** [!!v] *)
Definition truthy (v : value) : bool :=
  match v with
  | VUndefined => false
  | VString s => negb (bool_decide (s = []))
  | VNumber (Int z) => negb (z =? 0)%Z
  | VNumber (Infinity _) => true
  | VNumber NaN => false
  end.

Inductive error :=
| TypeError (what : string).

(** A call either returns or throws. *)
Inductive completion (A : Type) :=
| Return (a : A)
| Throw (e : error).

Arguments Return {A} a.
Arguments Throw {A} e.

#[global] Instance completion_ret : MRet completion := @Return.
#[global] Instance completion_bind : MBind completion :=
  λ A B f m, match m with Return a => f a | Throw e => Throw e end.

(** [s || d] on strings *)
Definition orElse (s d : jsstring) : jsstring :=
  match s with [] => d | _ => s end.

End Js.

Import Js.

(** ** Regular expressions

    The fragment of the regular expressions of the source, matched the way
    the language does: leftmost start, greedy quantifiers, backtracking. *)

Module Regex.

Inductive regex :=
| Unit (c : N)
| Digit
| Seq (r1 r2 : regex)
| Alt (r1 r2 : regex)
| Opt (r : regex)
| Plus (r : regex)
| Group (i : nat) (r : regex).

Abbreviation captures := (gmap nat jsstring).

Section Many.
Context {R : Type}.
Variable step : jsstring → captures → (jsstring → captures → option R) → option R.
Variable k : jsstring → captures → option R.

(** Zero or more further iterations of a quantified expression, as many as
    possible first; an iteration has to consume input. *)
Fixpoint many (fuel : nat) (s : jsstring) (caps : captures) : option R :=
  match fuel with
  | O => k s caps
  | S f =>
      match step s caps (λ s' caps',
              if (length s' <? length s)%nat then many f s' caps' else None) with
      | Some x => Some x
      | None => k s caps
      end
  end.

End Many.

(** [rmatch r s caps k]: match [r] at the start of [s], then continue with
    [k] on the rest; a failing continuation makes the matcher try its next
    alternative. *)
Fixpoint rmatch {R : Type} (r : regex) (s : jsstring) (caps : captures)
  (k : jsstring → captures → option R) : option R :=
  match r with
  | Unit c =>
      match s with
      | x :: s' => if x =? c then k s' caps else None
      | [] => None
      end
  | Digit =>
      match s with
      | x :: s' => if isDigit x then k s' caps else None
      | [] => None
      end
  | Seq r1 r2 => rmatch r1 s caps (λ s' caps', rmatch r2 s' caps' k)
  | Alt r1 r2 =>
      match rmatch r1 s caps k with
      | Some x => Some x
      | None => rmatch r2 s caps k
      end
  | Opt r1 =>
      match rmatch r1 s caps k with
      | Some x => Some x
      | None => k s caps
      end
  | Plus r1 =>
      rmatch r1 s caps (λ s' caps', many (rmatch r1) k (length s') s' caps')
  | Group i r1 =>
      rmatch r1 s caps (λ s' caps',
        k s' (<[i := take (length s - length s') s]> caps'))
  end.

(** [s.match(r)] without the global flag: the groups of the leftmost match,
    group 0 being the whole match. *)
Fixpoint search (r : regex) (s : jsstring) : option captures :=
  match rmatch r s ∅ (λ s' caps,
          Some (<[O := take (length s - length s') s]> caps)) with
  | Some m => Some m
  | None =>
      match s with
      | [] => None
      | _ :: s' => search r s'
      end
  end.

(** [m[i]] *)
Definition group (i : nat) (m : captures) : jsstring := default [] (m !! i).

(** [consumes r s caps caps']: the expression [r] can consume exactly [s],
    taking the groups from [caps] to [caps']. *)
Inductive consumes : regex → jsstring → captures → captures → Prop :=
| consumes_unit c caps : consumes (Unit c) [c] caps caps
| consumes_digit c caps : isDigit c = true → consumes Digit [c] caps caps
| consumes_seq r1 r2 s1 s2 caps0 caps1 caps2 :
    consumes r1 s1 caps0 caps1 → consumes r2 s2 caps1 caps2 →
    consumes (Seq r1 r2) (s1 ++ s2) caps0 caps2
| consumes_alt_l r1 r2 s caps0 caps1 :
    consumes r1 s caps0 caps1 → consumes (Alt r1 r2) s caps0 caps1
| consumes_alt_r r1 r2 s caps0 caps1 :
    consumes r2 s caps0 caps1 → consumes (Alt r1 r2) s caps0 caps1
| consumes_opt_some r s caps0 caps1 :
    consumes r s caps0 caps1 → consumes (Opt r) s caps0 caps1
| consumes_opt_none r caps : consumes (Opt r) [] caps caps
| consumes_plus_one r s caps0 caps1 :
    consumes r s caps0 caps1 → consumes (Plus r) s caps0 caps1
| consumes_plus_more r s1 s2 caps0 caps1 caps2 :
    consumes r s1 caps0 caps1 → consumes (Plus r) s2 caps1 caps2 →
    consumes (Plus r) (s1 ++ s2) caps0 caps2
| consumes_group i r s caps0 caps1 :
    consumes r s caps0 caps1 → consumes (Group i r) s caps0 (<[i := s]> caps1).

(** The matcher is sound for [r]: what it hands to its continuation is the
    rest of the input after a prefix that [r] consumes. *)
Definition sound {R : Type} (r : regex) : Prop :=
  ∀ s caps (k : jsstring → captures → option R) (x : R),
    rmatch r s caps k = Some x →
    ∃ s1 s2 caps', s = s1 ++ s2 ∧ consumes r s1 caps caps' ∧ k s2 caps' = Some x.

End Regex.

Import Regex.

(** ** Field extractors *)

(** The separator of [extractMetadata] as the source file has it: a space,
    U+00C2, U+00B7, a space. *)
Definition metadataSeparator : jsstring := js " " ++ [194; 183] ++ js " ".

(** The middle dot U+00B7, which the catalogue page puts between the parts. *)
Definition middleDot : jsstring := [183].

Definition extractMetadata (metadataText : value)
  : completion (jsstring * jsstring * jsstring) :=
  if negb (truthy metadataText) then Return ([], [], [])
  else
    match metadataText with
    | VString text =>
        let parts := split metadataSeparator text in
        let level := orElse (default [] (parts !! 0%nat)) [] in
        let type_ := orElse (default [] (parts !! 1%nat)) [] in
        let duration := orElse (default [] (parts !! 2%nat)) [] in
        Return (level, type_, duration)
    | _ => Throw (TypeError "metadataText.split is not a function")
    end.

(** [/(\d+(?:\.\d+)?)(K|M)/] *)
Definition suffixedCount : regex :=
  Seq (Group 1 (Seq (Plus Digit) (Opt (Seq (Unit 46) (Plus Digit)))))
      (Group 2 (Alt (Unit 75) (Unit 77))).

(** [/(\d+)/] *)
Definition digitRun : regex := Group 1 (Plus Digit).

Definition convertReviewsToNumeric (reviewsText : value) : completion number :=
  if negb (truthy reviewsText) then Return (Int 0)
  else
    match reviewsText with
    | VString text =>
        let suffixed :=
          match search suffixedCount text with
          | Some m =>
              let num := parseFloat (group 1 m) in
              let unit := group 2 m in
              if bool_decide (unit = js "K") then
                Some (floor (mul num (ofZ 1000)))
              else if bool_decide (unit = js "M") then
                Some (floor (mul num (ofZ 1000000)))
              else None
          | None => None
          end in
        match suffixed with
        | Some count => Return count
        | None =>
            match search digitRun text with
            | Some numMatch => Return (parseInt (group 1 numMatch))
            | None => Return (Int 0)
            end
        end
    | _ => Throw (TypeError "reviewsText.match is not a function")
    end.

Definition skillsLabel : jsstring := js "Skills you'll gain:".

Definition cleanSkills (skillsText : value) : completion jsstring :=
  match skillsText with
  | VString text =>
      if startsWith skillsLabel text
      then Return (trim (slice (length skillsLabel) text))
      else Return (trim text)
  | VUndefined =>
      Throw (TypeError "Cannot read properties of undefined (reading 'startsWith')")
  | VNumber _ => Throw (TypeError "skillsText.startsWith is not a function")
  end.

(** ** The record builder *)

Module Dom.

(** What the record builder uses of a parsed document: selections of
    elements and five operations on them. *)
Class Cheerio (selection : Type) := {
  (** [sel.find(selector)] *)
  find : selection → jsstring → selection;
  (** [sel.next(selector)] *)
  next : selection → jsstring → selection;
  (** [sel.text()] *)
  text : selection → jsstring;
  (** [sel.attr(name)], [None] for undefined *)
  attr : selection → jsstring → option jsstring;
  (** [sel.length] *)
  size : selection → nat;
  (** the elements of the selection, each as a selection of its own *)
  elements : selection → list selection;
  (** an empty selection has no text *)
  text_empty : ∀ sel, size sel = 0%nat → text sel = []
}.

End Dom.

Import Dom.

Module Course.

Record course := {
  title : jsstring;
  partner : jsstring;
  rating : jsstring;
  reviews : number;
  skills : jsstring;
  level : jsstring;
  type_ : jsstring;
  duration : jsstring;
  url : jsstring;
  plus : jsstring;
  degree : jsstring
}.

End Course.

Abbreviation course := Course.course.

Definition origin : jsstring := js "https://www.coursera.org".

Section RecordBuilder.
Context {selection : Type} `{Cheerio selection}.

(** The text next to the rating, when it speaks of reviews. *)
Definition reviewsText (card : selection) : jsstring :=
  let ratingElem := find card (js "span.css-4s48ix") in
  if bool_decide (size ratingElem ≠ 0%nat) then
    let nextElem := next ratingElem (js "div.css-vac8rf") in
    if bool_decide (size nextElem ≠ 0%nat)
       && includes (js "reviews") (toLowerCase (text nextElem))
    then trim (text nextElem)
    else []
  else [].

Definition skillsText (card : selection) : jsstring :=
  let skillsDiv := find card (js "div.cds-CommonCard-bodyContent") in
  if bool_decide (size skillsDiv ≠ 0%nat) then
    let skillsP := find skillsDiv (js "p.css-vac8rf") in
    if bool_decide (size skillsP ≠ 0%nat)
    then replace (js "Skills you'll gain: ") [] (trim (text skillsP))
    else []
  else [].

Definition metadataText (card : selection) : jsstring :=
  let metadataDiv := find card (js "div.cds-CommonCard-metadata") in
  if bool_decide (size metadataDiv ≠ 0%nat) then
    let metadataP := find metadataDiv (js "p") in
    if bool_decide (size metadataP ≠ 0%nat)
    then trim (text metadataP)
    else []
  else [].

Definition cardUrl (card : selection) : jsstring :=
  let linkElem := find card (js "a.cds-CommonCard-titleLink") in
  if bool_decide (size linkElem ≠ 0%nat)
     && truthy (from_option VString VUndefined (attr linkElem (js "href")))
  then
    let href := default [] (attr linkElem (js "href")) in
    origin ++ href
  else [].

(** The body of the loop over the cards. *)
Definition extractCard (card : selection) : completion course :=
  let titleElem := find card (js "h3.cds-CommonCard-title") in
  let title := orElse (trim (text titleElem)) [] in
  let partnerElem := find card (js "p.cds-ProductCard-partnerNames") in
  let partner := orElse (trim (text partnerElem)) [] in
  let ratingElem := find card (js "span.css-4s48ix") in
  let rating := orElse (trim (text ratingElem)) (js "-") in
  reviews ← convertReviewsToNumeric (VString (reviewsText card));
  skills ← cleanSkills (VString (skillsText card));
  '(level, type_, duration) ← extractMetadata (VString (metadataText card));
  let url := cardUrl card in
  let plusElem :=
    find card (js "div[data-testid=" ++ [34] ++
               js "product-card-coursera-plus" ++ [34] ++ js "]") in
  let plus := if bool_decide (size plusElem ≠ 0%nat) then js "plus" else js "-" in
  let degreeElem := find card (js "p.css-ls7ln4") in
  let degree :=
    if bool_decide (size degreeElem ≠ 0%nat)
       && includes (js "Build toward a degree") (text degreeElem)
    then js "degree" else js "-" in
  Return {| Course.title := title; Course.partner := partner;
            Course.rating := rating; Course.reviews := reviews;
            Course.skills := skills; Course.level := level;
            Course.type_ := type_; Course.duration := duration;
            Course.url := url; Course.plus := plus;
            Course.degree := degree |}.

(** [extractCourseInfo] on the parsed document; the console line with the
    number of cards is left out. *)
Definition extractCourseInfo (document : selection) : completion (list course) :=
  let courseCards := find document (js "div.cds-ProductCard-base") in
  mapM extractCard (elements courseCards).

End RecordBuilder.

(** ** The exporter *)

Module Csv.

(** What goes to the console. *)
Inductive message :=
| NoCoursesFound                                (* No courses found. *)
| Extracted (n : nat) (outputFile : jsstring).  (* Extracted n courses and saved to outputFile *)

(** A written CSV file: the column ids handed to the writer, and the
    records in the order written. *)
Record table := {
  header : list jsstring;
  rows : list (gmap jsstring value)
}.

Record process := {
  console : list message;
  files : gmap jsstring table
}.

Definition log (m : message) (p : process) : process :=
  {| console := console p ++ [m]; files := files p |}.

(** [csvWriter.writeRecords(records)] on a writer made for [path] and the
    given column ids. *)
Definition writeRecords (path : jsstring) (ids : list jsstring)
  (records : list (gmap jsstring value)) (p : process) : process :=
  {| console := console p;
     files := <[path := {| header := ids; rows := records |}]> (files p) |}.


End Csv.

Import Csv.

Definition fixedColumns : list jsstring :=
  [js "partner"; js "title"; js "plus"; js "level"; js "type"; js "duration";
   js "degree"; js "rating"; js "reviews"; js "url"].

(** [{ ...course }] *)
Definition spread (c : course) : gmap jsstring value :=
  <[js "degree" := VString (Course.degree c)]>
  (<[js "plus" := VString (Course.plus c)]>
  (<[js "url" := VString (Course.url c)]>
  (<[js "duration" := VString (Course.duration c)]>
  (<[js "type" := VString (Course.type_ c)]>
  (<[js "level" := VString (Course.level c)]>
  (<[js "skills" := VString (Course.skills c)]>
  (<[js "reviews" := VNumber (Course.reviews c)]>
  (<[js "rating" := VString (Course.rating c)]>
  (<[js "partner" := VString (Course.partner c)]>
  (<[js "title" := VString (Course.title c)]> ∅)))))))))).

(** [course.skills ? course.skills.split(',').map(s => s.trim()) : []] *)
Definition courseSkills (c : course) : list jsstring :=
  if truthy (VString (Course.skills c))
  then trim <$> split (js ",") (Course.skills c)
  else [].

(** The body of [courses.map] in [saveToCsv]. *)
Definition exportRow (uniqueSkills : list jsstring) (c : course)
  : gmap jsstring value :=
  let record := spread c in
  let record :=
    foldl (λ record skill,
             <[skill := VString (if bool_decide (skill ∈ courseSkills c)
                                 then skill else [])]> record)
          record uniqueSkills in
  delete (js "skills") record.

Definition saveToCsv (courses : list course) (outputFile : jsstring)
  (uniqueSkills : list jsstring) (p : process) : process :=
  if bool_decide (length courses = 0%nat) then log NoCoursesFound p
  else
    let fieldnames := fixedColumns ++ uniqueSkills in
    let records := exportRow uniqueSkills <$> courses in
    log (Extracted (length courses) outputFile)
        (writeRecords outputFile fieldnames records p).

(** [uniqueSkills.add(x)] on a set kept in insertion order *)
Definition setAdd (x : jsstring) (set : list jsstring) : list jsstring :=
  if bool_decide (x ∈ set) then set else set ++ [x].

(** The body of [courses.forEach] in [main]. *)
Definition addCourse (uniqueSkills : list jsstring) (c : course)
  : list jsstring :=
  if truthy (VString (Course.skills c))
  then foldl (λ set skill, setAdd (trim skill) set) uniqueSkills
             (split (js ",") (Course.skills c))
  else uniqueSkills.

(** The set of skills [main] collects over the courses. *)
Definition collectSkills (courses : list course) : list jsstring :=
  foldl addCourse [] courses.

(** [Array.from(uniqueSkills).sort()] *)
Definition uniqueSkillsArray (courses : list course) : list jsstring :=
  merge_sort JsString.le (collectSkills courses).

(** A record as the builder makes it for a card that has a title and a
    skills paragraph and nothing else. *)
Definition bareCourse (title skills : jsstring) : course :=
  {| Course.title := title; Course.partner := []; Course.rating := js "-";
     Course.reviews := Int 0; Course.skills := skills; Course.level := [];
     Course.type_ := []; Course.duration := []; Course.url := [];
     Course.plus := js "-"; Course.degree := js "-" |}.

(** The two records of the specification's export example. *)
Definition exampleCourses : list course :=
  [bareCourse (js "Data Engineering") (js "SQL, Python");
   bareCourse (js "Programming") (js "Python")].


(** ** The content loader *)

Module Loader.

Inductive action :=
| ScrollToBottom
| Sleep (ms : nat)
| Measure (height : Z)
| PageSource.

#[global] Instance action_eq_dec : EqDecision action.
Proof. solve_decision. Defined.

(** A browser session: [extent n] is the scroll height the page reports at
    its measurement number [n]; [measured] counts the measurements made and
    [trace] lists what the session was asked to do. *)
Record session := {
  extent : nat → Z;
  measured : nat;
  trace : list action
}.

Definition perform (a : action) (d : session) : session :=
  {| extent := extent d; measured := measured d; trace := trace d ++ [a] |}.

(** [driver.executeScript('return document.body.scrollHeight')] *)
Definition scrollHeight (d : session) : Z * session :=
  let h := extent d (measured d) in
  (h, {| extent := extent d; measured := S (measured d);
         trace := trace d ++ [Measure h] |}).

(** The [while (true)] loop; [None] when [fuel] iterations did not reach
    the [break]. *)
Fixpoint scrollLoop (fuel : nat) (lastHeight : Z) (d : session)
  : option session :=
  match fuel with
  | O => None
  | S fuel' =>
      let d := perform ScrollToBottom d in
      let d := perform (Sleep 1000) d in
      let (newHeight, d) := scrollHeight d in
      if (newHeight =? lastHeight)%Z then Some d
      else scrollLoop fuel' newHeight d
  end.

(** From the first measurement to [driver.getPageSource()]. *)
Definition loadPage (fuel : nat) (d : session) : option session :=
  let (lastHeight, d) := scrollHeight d in
  perform PageSource <$> scrollLoop fuel lastHeight d.

(** What [count] iterations of the loop ask of the session, the first of
    them making measurement number [from]. *)
Definition rounds (extents : nat → Z) (from count : nat) : list action :=
  i ← seq from count; [ScrollToBottom; Sleep 1000; Measure (extents i)].

(** A page that grows at every measurement. *)
Definition everGrowing : nat → Z := λ n, (100 * Z.of_nat (S n))%Z.

(** The session after [m] measurements, with trace [t]. *)
Definition sessionAt (extents : nat → Z) (m : nat) (t : list action) : session :=
  {| extent := extents; measured := m; trace := t |}.

(** A session on a page reporting the given extents, nothing done yet. *)
Definition fresh (extents : nat → Z) : session :=
  {| extent := extents; measured := 0; trace := [] |}.

(** The extents [l], then [rest]. *)
Definition extentsFrom (l : list Z) (rest : nat → Z) : nat → Z :=
  λ n, match l !! n with Some h => h | None => rest (n - length l)%nat end.

End Loader.

Import Loader.

(** ** A document tree

    An implementation of the selections above on a plain element tree, with
    the three shapes of selector the scraper uses: [tag], [tag.class] and
    [tag[name="value"]]. *)

Module Tree.

#[warnings="-register-all"]
Inductive node :=
| TextNode (content : jsstring)
| Element (tag : jsstring) (attributes : list (jsstring * jsstring))
    (children : list node).

(** A node with the siblings that follow it. *)
Record placed := { here : node; after : list node }.

Record selector := {
  selTag : jsstring;
  selClass : option jsstring;
  selAttr : option (jsstring * jsstring)
}.

Definition parseSelector (s : jsstring) : selector :=
  let (tag, r) := span (λ c, negb (c =? 46) && negb (c =? 91)) s in
  match r with
  | 46 :: cls => {| selTag := tag; selClass := Some cls; selAttr := None |}
  | 91 :: r' =>
      let (name, r'') := span (λ c, negb (c =? 61)) r' in
      let val := fst (span (λ c, negb (c =? 34)) (drop 2 r'')) in
      {| selTag := tag; selClass := None; selAttr := Some (name, val) |}
  | _ => {| selTag := tag; selClass := None; selAttr := None |}
  end.

Fixpoint attribute (name : jsstring) (attributes : list (jsstring * jsstring))
  : option jsstring :=
  match attributes with
  | [] => None
  | (n, v) :: rest => if bool_decide (n = name) then Some v else attribute name rest
  end.

Definition matches (sel : selector) (n : node) : bool :=
  match n with
  | TextNode _ => false
  | Element tag attributes _ =>
      bool_decide (tag = selTag sel)
      && match selClass sel with
         | Some cls =>
             bool_decide (cls ∈ split (js " ")
                                  (default [] (attribute (js "class") attributes)))
         | None => true
         end
      && match selAttr sel with
         | Some (name, val) => bool_decide (attribute name attributes = Some val)
         | None => true
         end
  end.

(** The nodes below [n], in document order. *)
Fixpoint descendants (n : node) : list placed :=
  match n with
  | TextNode _ => []
  | Element _ _ children =>
      (fix walk (l : list node) : list placed :=
         match l with
         | [] => []
         | c :: rest =>
             {| here := c; after := rest |} :: descendants c ++ walk rest
         end) children
  end.

Fixpoint nodeText (n : node) : jsstring :=
  match n with
  | TextNode content => content
  | Element _ _ children =>
      (fix walk (l : list node) : jsstring :=
         match l with
         | [] => []
         | c :: rest => nodeText c ++ walk rest
         end) children
  end.

Definition isElement (n : node) : bool :=
  match n with Element _ _ _ => true | TextNode _ => false end.

Fixpoint skipText (l : list node) : list node :=
  match l with
  | n :: rest => if isElement n then l else skipText rest
  | [] => []
  end.

(** The element sibling that comes next, if it matches. *)
Definition nextOf (sel : selector) (p : placed) : list placed :=
  match skipText (after p) with
  | n :: rest => if matches sel n then [{| here := n; after := rest |}] else []
  | [] => []
  end.

#[global, refine] Instance tree_cheerio : Cheerio (list placed) := {|
  find sel s :=
    p ← sel; filter (λ q, matches (parseSelector s) (here q) = true)
                    (descendants (here p));
  next sel s := p ← sel; nextOf (parseSelector s) p;
  text sel := p ← sel; nodeText (here p);
  attr sel name :=
    match sel with
    | {| here := Element _ attributes _ |} :: _ => attribute name attributes
    | _ => None
    end;
  size sel := length sel;
  elements sel := (λ p, [p]) <$> sel
|}.
Proof. intros [|p sel]; [reflexivity | discriminate]. Defined.

(** The document with the given top-level nodes. *)
Definition document (nodes : list node) : list placed :=
  [{| here := Element (js "html") [] nodes; after := [] |}].

End Tree.

(** A card as the catalogue page renders it, with the given texts next to
    the rating, in the skills paragraph and in the metadata paragraph. *)
Definition exampleCard (reviewsLine skillsLine metadataLine : jsstring)
  : Tree.node :=
  let class name := (js "class", name) in
  Tree.Element (js "div") [class (js "cds-ProductCard-base")]
    [Tree.Element (js "h3") [class (js "cds-CommonCard-title")]
       [Tree.TextNode (js "Data Science")];
     Tree.Element (js "p") [class (js "cds-ProductCard-partnerNames")]
       [Tree.TextNode (js "IBM")];
     Tree.Element (js "div") []
       [Tree.Element (js "span") [class (js "css-4s48ix")]
          [Tree.TextNode (js "4.6")];
        Tree.Element (js "div") [class (js "css-vac8rf")]
          [Tree.TextNode reviewsLine]];
     Tree.Element (js "div") [class (js "cds-CommonCard-bodyContent")]
       [Tree.Element (js "p") [class (js "css-vac8rf")]
          [Tree.TextNode skillsLine]];
     Tree.Element (js "div") [class (js "cds-CommonCard-metadata")]
       [Tree.Element (js "p") [] [Tree.TextNode metadataLine]];
     Tree.Element (js "a")
       [class (js "cds-CommonCard-titleLink");
        (js "href", js "/professional-certificates/ibm-data-science")]
       [Tree.TextNode (js "Data Science")]].

(** A card alone, as [$(card)] wraps it. *)
Definition wrap (card : Tree.node) : list Tree.placed :=
  [{| Tree.here := card; Tree.after := [] |}].


(** A card with nothing in it. *)
Definition emptyCard : Tree.node :=
  Tree.Element (js "div") [(js "class", js "cds-ProductCard-base")] [].

(** ** The end of [main]

    What [main] does with the page once it is loaded: build the records,
    collect and sort the skills, and save. *)

Definition outputFile : jsstring := js "coursera_courses.csv".


(** [parts.join(sep)] *)
Fixpoint join (sep : jsstring) (parts : list jsstring) : jsstring :=
  match parts with
  | [] => []
  | [part] => part
  | part :: rest => part ++ sep ++ join sep rest
  end.

(** ** Predicates of the specification *)

(** A double that is zero, positive or plus infinity. *)
Definition nonneg (x : double) : Prop :=
  match x with
  | S754_zero false | S754_infinity false | S754_finite false _ _ => True
  | _ => False
  end.

(** A review count: a non-negative integer, or plus infinity. *)
Definition isCount (n : number) : Prop :=
  n = Infinity false ∨ ∃ z : Z, (0 ≤ z)%Z ∧ n = Int z.

(** A double whose value is the positive integer [n], held with at least
    53 binary digits. *)
Definition integral (x : double) (n : Z) : Prop :=
  ∃ m j, x = S754_finite false m (- j) ∧ (0 ≤ j)%Z
         ∧ Z.pos m = (n * 2 ^ j)%Z ∧ (53 ≤ Zdigits2 n + j)%Z.

(** A string that does not go on with a digit. *)
Definition startsNoDigit (s : jsstring) : Prop :=
  ∀ c, head s = Some c → isDigit c = false.

(** The factor of a suffix: 1000 for K, 1000000 for M. *)
Definition scaleOf (unit : N) : Z := if unit =? 75 then 1000 else 1000000.

(** * Properties *)

(** ** Trimming *)

Lemma trimStart_head s c :
  head (trimStart s) = Some c → isWhiteSpace c = false.
Proof.
  induction s as [|x s IH]; cbn; [done|].
  destruct (isWhiteSpace x) eqn:Hx; [exact IH|].
  cbn. intros [= <-]. exact Hx.
Qed.

Lemma trimStart_suffix s : trimStart s `suffix_of` s.
Proof.
  induction s as [|x s IH]; cbn; [done|].
  destruct (isWhiteSpace x); [by apply suffix_cons_r | done].
Qed.

Lemma trimEnd_prefix s : trimEnd s `prefix_of` s.
Proof.
  unfold trimEnd. destruct (trimStart_suffix (reverse s)) as [k Hk].
  exists (reverse k). rewrite <- reverse_app, <- Hk, reverse_involutive.
  reflexivity.
Qed.

Lemma trimEnd_last s c : last (trimEnd s) = Some c → isWhiteSpace c = false.
Proof. unfold trimEnd. rewrite last_reverse. apply trimStart_head. Qed.

Lemma trim_trimmed s : trimmed (trim s).
Proof.
  unfold trim. split; intros c Hc; [|by apply trimEnd_last in Hc].
  destruct (trimEnd_prefix (trimStart s)) as [k Hk].
  apply (trimStart_head s). rewrite Hk.
  destruct (trimEnd (trimStart s)); [done | exact Hc].
Qed.


(** ** The order of [sort] *)

Lemma leb_total a : ∀ b, leb a b = true ∨ leb b a = true.
Proof.
  induction a as [|x a IH]; intros [|y b]; cbn; auto.
  destruct (N.lt_trichotomy x y) as [Hlt|[->|Hgt]].
  - left. apply N.ltb_lt in Hlt. rewrite Hlt. reflexivity.
  - rewrite N.ltb_irrefl, N.eqb_refl. cbn. apply IH.
  - right. apply N.ltb_lt in Hgt. rewrite Hgt. reflexivity.
Qed.

Lemma leb_trans a : ∀ b c, leb a b = true → leb b c = true → leb a c = true.
Proof.
  induction a as [|x a IH]; intros [|y b] [|z c]; cbn; try done.
  rewrite !orb_true_iff, !andb_true_iff, !N.ltb_lt, !N.eqb_eq.
  intros [Hxy|[-> Hab]] [Hyz|[-> Hbc]]; eauto.
  left. lia.
Qed.

Lemma leb_antisym a : ∀ b, leb a b = true → leb b a = true → a = b.
Proof.
  induction a as [|x a IH]; intros [|y b]; cbn; try done.
  rewrite !orb_true_iff, !andb_true_iff, !N.ltb_lt, !N.eqb_eq.
  intros [Hxy|[-> Hab]] [Hyx|[Heq Hba]]; try lia.
  f_equal. apply IH; assumption.
Qed.

#[global] Instance le_total : Total JsString.le.
Proof. intros a b. apply leb_total. Qed.

#[global] Instance le_trans : Transitive JsString.le.
Proof. intros a b c. apply leb_trans. Qed.

#[global] Instance le_antisym : AntiSymm (=) JsString.le.
Proof. intros a b. apply leb_antisym. Qed.

(** ** Signs of the arithmetic *)

Section Signs.
Local Open Scope Z_scope.

Lemma shr_1_nonneg mrs : 0 ≤ shr_m mrs → 0 ≤ shr_m (shr_1 mrs).
Proof. destruct mrs as [[|[m|m|]|m] r t]; cbn; lia. Qed.

Lemma iter_shr_1_nonneg p : ∀ mrs,
  0 ≤ shr_m mrs → 0 ≤ shr_m (SpecFloat.iter_pos shr_1 p mrs).
Proof.
  induction p as [p IH|p IH|]; cbn; intros mrs Hm;
    auto using shr_1_nonneg.
Qed.

Lemma shr_fexp_nonneg m e l :
  0 ≤ m → 0 ≤ shr_m (fst (shr_fexp prec emax m e l)).
Proof.
  intros Hm. unfold shr_fexp, shr.
  assert (0 ≤ shr_m (shr_record_of_loc m l)) by (by destruct l as [|[]]).
  destruct (fexp prec emax (Zdigits2 m + e) - e); cbn;
    auto using iter_shr_1_nonneg.
Qed.

Lemma round_nearest_even_nonneg m l : 0 ≤ m → 0 ≤ round_nearest_even m l.
Proof. destruct l as [|[]]; cbn; try destruct (Z.even m); lia. Qed.

Lemma binary_round_aux_nonneg m e l :
  0 ≤ m → nonneg (binary_round_aux prec emax false m e l).
Proof.
  intros Hm. unfold binary_round_aux.
  pose proof (shr_fexp_nonneg m e l Hm) as H1.
  destruct (shr_fexp prec emax m e l) as [mrs1 e1]. cbn in H1.
  pose proof (shr_fexp_nonneg _ e1 loc_Exact
                (round_nearest_even_nonneg _ (loc_of_shr_record mrs1) H1)) as H2.
  destruct (shr_fexp prec emax _ e1 loc_Exact) as [mrs2 e2]. cbn in H2.
  destruct (shr_m mrs2); [done | by destruct (_ <=? _) | lia].
Qed.

Lemma ofZ_nonneg z : 0 ≤ z → nonneg (ofZ z).
Proof.
  intros Hz. unfold ofZ, binary_normalize. destruct z as [|m|m]; [done| |lia].
  unfold binary_round. destruct (shl_align _ _ _) as [mz ez].
  by apply binary_round_aux_nonneg.
Qed.

Lemma ofRatio_nonneg n d : nonneg (ofRatio n d).
Proof.
  unfold ofRatio. destruct n as [|p|p]; try done. destruct d as [|q|q]; try done.
  unfold SFdiv, SFdiv_core_binary.
  match goal with |- context [Z.div_eucl ?a ?b] =>
    assert (0 ≤ a) as Ha;
    [| pose proof (Z.div_pos a b Ha ltac:(lia)) as Hq; unfold Z.div in Hq;
       destruct (Z.div_eucl a b) as [quo r] ]
  end.
  - destruct (_ - _ - _); [lia | by apply Z.shiftl_nonneg | lia].
  - by apply binary_round_aux_nonneg.
Qed.

Lemma mul_nonneg x m e : nonneg x → nonneg (mul x (S754_finite false m e)).
Proof.
  destruct x as [[]|[]| |[] mx ex]; try done. intros _. cbn.
  by apply binary_round_aux_nonneg.
Qed.

Lemma floor_nonneg x : nonneg x → isCount (floor x).
Proof.
  destruct x as [[]|[]| |[] m e]; try done; intros _; cbn.
  - right. by exists 0.
  - by left.
  - right. eexists. split; [|reflexivity].
    destruct e; [done | by apply Z.shiftl_nonneg | by apply Z.shiftr_nonneg].
Qed.

Lemma decimal_from_nonneg ds : ∀ acc,
  0 ≤ acc → 0 ≤ foldl (λ acc c, 10 * acc + digitValue c) acc ds.
Proof.
  induction ds as [|c ds IH]; intros acc Hacc; cbn; [exact Hacc|].
  apply IH. unfold digitValue. lia.
Qed.

Lemma decimal_nonneg ds : 0 ≤ decimal ds.
Proof. by apply decimal_from_nonneg. Qed.

Lemma parseFloat_nonneg c s : isDigit c = true → nonneg (parseFloat (c :: s)).
Proof.
  intros Hc. unfold parseFloat. cbn. rewrite Hc.
  destruct (span isDigit s) as [ip r]. apply ofRatio_nonneg.
Qed.

Lemma parseInt_count c s : isDigit c = true → isCount (parseInt (c :: s)).
Proof.
  intros Hc. unfold parseInt. cbn [span]. rewrite Hc.
  destruct (span isDigit s) as [ip r]. cbn [fst].
  apply floor_nonneg, ofZ_nonneg, decimal_nonneg.
Qed.

Lemma thousands_count x : nonneg x → isCount (floor (mul x (ofZ 1000))).
Proof.
  intros Hx. apply floor_nonneg.
  set (k := ofZ 1000). vm_compute in k. subst k. by apply mul_nonneg.
Qed.

Lemma millions_count x : nonneg x → isCount (floor (mul x (ofZ 1000000))).
Proof.
  intros Hx. apply floor_nonneg.
  set (k := ofZ 1000000). vm_compute in k. subst k. by apply mul_nonneg.
Qed.

End Signs.

(** ** The matcher *)

Section Matcher.
Context {R : Type}.
Implicit Types (k : jsstring → captures → option R) (x : R).
Local Abbreviation sound := (@sound R).

Lemma many_sound r k x : sound r → ∀ fuel s caps,
  many (rmatch r) k fuel s caps = Some x →
  k s caps = Some x
  ∨ ∃ s1 s2 caps',
      s = s1 ++ s2 ∧ consumes (Plus r) s1 caps caps' ∧ k s2 caps' = Some x.
Proof.
  intros Hr. induction fuel as [|fuel IH]; intros s caps; cbn [many];
    [by left|].
  destruct (rmatch r s caps _) as [y|] eqn:Hstep; [|by left].
  intros [= ->]. right.
  apply Hr in Hstep as (s1 & s2 & caps1 & -> & Hs1 & Hrest).
  destruct (_ <? _)%nat; [|done].
  apply IH in Hrest as [Hk|(s2' & s3 & caps2 & -> & Hs2 & Hk)].
  - exists s1, s2, caps1. eauto using consumes_plus_one.
  - exists (s1 ++ s2'), s3, caps2. rewrite <- app_assoc.
    eauto using consumes_plus_more.
Qed.

Lemma rmatch_sound r : sound r.
Proof.
  induction r as [c| |r1 IH1 r2 IH2|r1 IH1 r2 IH2|r IH|r IH|i r IH];
    intros s caps k x; cbn.
  - destruct s as [|y s]; [done|]. destruct (N.eqb_spec y c) as [->|]; [|done].
    intros Hk. exists [c], s, caps. eauto using consumes_unit.
  - destruct s as [|y s]; [done|]. destruct (isDigit y) eqn:Hy; [|done].
    intros Hk. exists [y], s, caps. eauto using consumes_digit.
  - intros (s1 & s2 & caps1 & -> & Hs1 & H2)%IH1.
    apply IH2 in H2 as (s2' & s3 & caps2 & -> & Hs2 & Hk).
    exists (s1 ++ s2'), s3, caps2. rewrite <- app_assoc.
    eauto using consumes_seq.
  - destruct (rmatch r1 s caps k) as [y|] eqn:H1.
    + intros [= ->]. apply IH1 in H1 as (s1 & s2 & caps1 & -> & Hs1 & Hk).
      exists s1, s2, caps1. eauto using consumes_alt_l.
    + intros (s1 & s2 & caps1 & -> & Hs1 & Hk)%IH2.
      exists s1, s2, caps1. eauto using consumes_alt_r.
  - destruct (rmatch r s caps k) as [y|] eqn:H1.
    + intros [= ->]. apply IH in H1 as (s1 & s2 & caps1 & -> & Hs1 & Hk).
      exists s1, s2, caps1. eauto using consumes_opt_some.
    + intros Hk. exists [], s, caps. eauto using consumes_opt_none.
  - intros (s1 & s2 & caps1 & -> & Hs1 & Hmore)%IH.
    apply (many_sound r k x IH) in Hmore
      as [Hk|(s2' & s3 & caps2 & -> & Hs2 & Hk)].
    + exists s1, s2, caps1. eauto using consumes_plus_one.
    + exists (s1 ++ s2'), s3, caps2. rewrite <- app_assoc.
      eauto using consumes_plus_more.
  - intros (s1 & s2 & caps1 & -> & Hs1 & Hk)%IH.
    rewrite length_app, Nat.add_sub, take_app_length in Hk.
    exists s1, s2, (<[i := s1]> caps1). eauto using consumes_group.
Qed.

End Matcher.

Lemma match_here_sound r s m :
  rmatch r s ∅ (λ s' caps, Some (<[O := take (length s - length s') s]> caps))
  = Some m →
  ∃ whole caps, consumes r whole ∅ caps ∧ m = <[O := whole]> caps.
Proof.
  intros (s1 & s2 & caps & -> & Hs1 & Hk)%rmatch_sound.
  injection Hk as <-. rewrite length_app, Nat.add_sub, take_app_length. eauto.
Qed.

(** A successful search found a part of the text that the expression
    consumes, and returns the groups of that match. *)
Lemma search_sound r s : ∀ m,
  search r s = Some m →
  ∃ whole caps, consumes r whole ∅ caps ∧ m = <[O := whole]> caps.
Proof.
  induction s as [|c s IH]; intros m; cbn [search].
  - destruct (rmatch r [] ∅ _) as [y|] eqn:Hhere; [|done].
    intros [= ->]. by apply match_here_sound in Hhere.
  - destruct (rmatch r (c :: s) ∅ _) as [y|] eqn:Hhere; [|apply IH].
    intros [= ->]. by apply match_here_sound in Hhere.
Qed.

(** A run of digits starts with a digit. *)
Lemma consumes_digits_head s caps caps' :
  consumes (Plus Digit) s caps caps' →
  ∃ c s', s = c :: s' ∧ isDigit c = true.
Proof.
  intros H. remember (Plus Digit) as r eqn:Hr.
  induction H as [| | | | | | |r s caps0 caps1 H _
                  |r s1 s2 caps0 caps1 caps2 H1 _ _ _|]; try discriminate.
  - injection Hr as ->. inversion H; subst. eauto.
  - injection Hr as ->. inversion H1; subst. cbn. eauto.
Qed.

Lemma consumes_unit_alt a b s caps caps' :
  consumes (Alt (Unit a) (Unit b)) s caps caps' → caps' = caps.
Proof.
  inversion 1 as [| | |? ? ? ? ? Hl|? ? ? ? ? Hr| | | | |]; subst.
  - by inversion Hl.
  - by inversion Hr.
Qed.

Lemma suffixedCount_group1 s m :
  search suffixedCount s = Some m →
  ∃ c g, group 1 m = c :: g ∧ isDigit c = true.
Proof.
  intros (whole & caps & Hwhole & ->)%search_sound.
  unfold suffixedCount in Hwhole.
  inversion Hwhole as [| |? ? g1 g2 ? caps1 ? H1 H2| | | | | | |]; subst.
  inversion H2 as [| | | | | | | | |? ? ? ? caps2 Hunit]; subst.
  apply consumes_unit_alt in Hunit as ->.
  inversion H1 as [| | | | | | | | |? ? ? ? caps3 Hnum]; subst.
  inversion Hnum as [| |? ? d f ? ? ? Hd Hf| | | | | | |]; subst.
  apply consumes_digits_head in Hd as (c & d' & -> & Hc).
  exists c, (d' ++ f). split; [|exact Hc].
  unfold group.
  rewrite lookup_insert_ne, lookup_insert_ne, lookup_insert_eq by done.
  reflexivity.
Qed.

Lemma digitRun_group1 s m :
  search digitRun s = Some m →
  ∃ c g, group 1 m = c :: g ∧ isDigit c = true.
Proof.
  intros (whole & caps & Hwhole & ->)%search_sound.
  unfold digitRun in Hwhole.
  inversion Hwhole as [| | | | | | | | |? ? ? ? caps1 Hd]; subst.
  apply consumes_digits_head in Hd as (c & d' & -> & Hc).
  exists c, d'. split; [|exact Hc].
  unfold group. rewrite lookup_insert_ne, lookup_insert_eq by done.
  reflexivity.
Qed.

(** ** Field extractors *)

Lemma zero_count : isCount (Int 0).
Proof. right. by exists 0%Z. Qed.

(** The first run of digits, or 0, is a count. *)
Lemma digitRun_count (text : jsstring) :
  ∃ n, match search digitRun text with
       | Some numMatch => Return (parseInt (group 1 numMatch))
       | None => Return (Int 0)
       end = Return n ∧ isCount n.
Proof.
  destruct (search digitRun text) as [m|] eqn:Hm.
  - apply digitRun_group1 in Hm as (c & g & -> & Hc).
    eauto using parseInt_count.
  - eauto using zero_count.
Qed.

(** On a string [convertReviewsToNumeric] returns, and returns a count. *)
Lemma convertReviewsToNumeric_string (text : jsstring) :
  ∃ n, convertReviewsToNumeric (VString text) = Return n ∧ isCount n.
Proof.
  unfold convertReviewsToNumeric.
  destruct (negb (truthy (VString text))); [eauto using zero_count|].
  destruct (search suffixedCount text) as [m|] eqn:Hm;
    [|apply digitRun_count].
  apply suffixedCount_group1 in Hm as (c & g & Hg & Hc).
  pose proof (parseFloat_nonneg c g Hc) as Hnum. rewrite <- Hg in Hnum.
  repeat case_bool_decide;
    eauto using thousands_count, millions_count, digitRun_count.
Qed.

Lemma cleanSkills_string (text : jsstring) :
  ∃ skills, cleanSkills (VString text) = Return skills.
Proof. unfold cleanSkills. destruct (startsWith _ _); eauto. Qed.

Lemma extractMetadata_string (text : jsstring) :
  ∃ parts, extractMetadata (VString text) = Return parts.
Proof. unfold extractMetadata. destruct (negb _); eauto. Qed.

(** C2: on the spec's example, whose parts are separated by " · " (space,
    U+00B7, space), [extractMetadata] splits nothing: the separator in the
    source is " Â· " (space, U+00C2, U+00B7, space), so the whole text
    comes back as the level, with empty type and duration. *)
Theorem extractMetadata_middle_dot_unsplit :
  let text := js "Intermediate " ++ middleDot ++ js " Course " ++ middleDot
              ++ js " 4 weeks" in
  extractMetadata (VString text) = Return (text, [], []).
Proof. vm_compute. reflexivity. Qed.

(** On a text separated the way the source spells it, the three parts are
    found; an absent or empty text gives three empty strings. *)
Lemma extractMetadata_source_separator :
  extractMetadata (VString (js "Intermediate" ++ metadataSeparator ++ js "Course"
                            ++ metadataSeparator ++ js "4 weeks"))
  = Return (js "Intermediate", js "Course", js "4 weeks").
Proof. vm_compute. reflexivity. Qed.

Lemma extractMetadata_absent :
  extractMetadata VUndefined = Return ([], [], []) ∧
  extractMetadata (VString []) = Return ([], [], []).
Proof. split; reflexivity. Qed.

(** C4: [convertReviewsToNumeric("4.1M")] is 4099999, not 4100000: the double
    nearest to 4.1 lies below it, the product with 1000000 rounds to
    4099999.9999999995, and [Math.floor] cuts that down. *)
Theorem convertReviewsToNumeric_4_1M :
  convertReviewsToNumeric (VString (js "4.1M")) = Return (Int 4099999).
Proof. vm_compute. reflexivity. Qed.

Lemma convertReviewsToNumeric_32_3K :
  convertReviewsToNumeric (VString (js "32.3K")) = Return (Int 32299).
Proof. vm_compute. reflexivity. Qed.

(** The five examples of the specification. *)
Lemma convertReviewsToNumeric_examples :
  convertReviewsToNumeric (VString (js "12K")) = Return (Int 12000) ∧
  convertReviewsToNumeric (VString (js "1.2M")) = Return (Int 1200000) ∧
  convertReviewsToNumeric (VString (js "457")) = Return (Int 457) ∧
  convertReviewsToNumeric (VString []) = Return (Int 0) ∧
  convertReviewsToNumeric VUndefined = Return (Int 0).
Proof. repeat split; vm_compute; reflexivity. Qed.

(** C5: [cleanSkills(undefined)] throws a TypeError: unlike its two
    siblings, the function reads a property of its argument without testing
    the argument first. *)
Theorem cleanSkills_undefined_throws :
  ∃ e, cleanSkills VUndefined = Throw e.
Proof. eexists. reflexivity. Qed.

Lemma cleanSkills_examples :
  cleanSkills (VString (js "Skills you'll gain: Python, SQL"))
  = Return (js "Python, SQL") ∧
  cleanSkills (VString (js "  Python  ")) = Return (js "Python") ∧
  cleanSkills (VString []) = Return [].
Proof. repeat split; vm_compute; reflexivity. Qed.

(** ** The skill vocabulary *)

Lemma elem_of_setAdd x y set : y ∈ setAdd x set ↔ y = x ∨ y ∈ set.
Proof.
  unfold setAdd. case_bool_decide.
  - split; [auto | intros [->|]; assumption].
  - rewrite elem_of_app, list_elem_of_singleton. tauto.
Qed.

Lemma NoDup_setAdd x set : NoDup set → NoDup (setAdd x set).
Proof.
  intros Hset. unfold setAdd. case_bool_decide; [assumption|].
  apply NoDup_app. split; [assumption|]. split.
  - intros y Hy ->%list_elem_of_singleton. contradiction.
  - apply NoDup_singleton.
Qed.

Section AddAll.
Variable f : jsstring → jsstring.

Lemma elem_of_foldl_setAdd l : ∀ set y,
  y ∈ foldl (λ set x, setAdd (f x) set) set l ↔ y ∈ set ∨ y ∈ f <$> l.
Proof.
  induction l as [|x l IH]; intros set y; cbn.
  - rewrite elem_of_nil. tauto.
  - rewrite IH, elem_of_setAdd, elem_of_cons. tauto.
Qed.

Lemma NoDup_foldl_setAdd l : ∀ set,
  NoDup set → NoDup (foldl (λ set x, setAdd (f x) set) set l).
Proof.
  induction l as [|x l IH]; intros set Hset; cbn; [assumption|].
  apply IH, NoDup_setAdd, Hset.
Qed.

End AddAll.

Lemma elem_of_addCourse set c y :
  y ∈ addCourse set c ↔ y ∈ set ∨ y ∈ courseSkills c.
Proof.
  unfold addCourse, courseSkills. destruct (truthy _).
  - apply elem_of_foldl_setAdd.
  - rewrite elem_of_nil. tauto.
Qed.

Lemma NoDup_addCourse set c : NoDup set → NoDup (addCourse set c).
Proof.
  unfold addCourse. destruct (truthy _); [|done]. apply NoDup_foldl_setAdd.
Qed.

Lemma elem_of_foldl_addCourse courses : ∀ set y,
  y ∈ foldl addCourse set courses
  ↔ y ∈ set ∨ ∃ c, c ∈ courses ∧ y ∈ courseSkills c.
Proof.
  induction courses as [|c courses IH]; intros set y; cbn.
  - split; [auto|]. intros [?|(c & Hc & _)]; [done|]. by apply elem_of_nil in Hc.
  - rewrite IH, elem_of_addCourse. split.
    + intros [[?|?]|(c' & Hc' & Hy)]; [by left| |].
      * right. exists c. split; [left|done].
      * right. exists c'. split; [by right|done].
    + intros [?|(c' & [->|Hc']%elem_of_cons & Hy)]; [by left; left| |].
      * left. by right.
      * right. by exists c'.
Qed.

Lemma NoDup_foldl_addCourse courses : ∀ set,
  NoDup set → NoDup (foldl addCourse set courses).
Proof.
  induction courses as [|c courses IH]; intros set Hset; cbn; [done|].
  apply IH, NoDup_addCourse, Hset.
Qed.

Lemma elem_of_collectSkills courses y :
  y ∈ collectSkills courses ↔ ∃ c, c ∈ courses ∧ y ∈ courseSkills c.
Proof.
  unfold collectSkills.
  rewrite elem_of_foldl_addCourse, elem_of_nil. tauto.
Qed.

Lemma NoDup_collectSkills courses : NoDup (collectSkills courses).
Proof. apply (NoDup_foldl_addCourse courses []), NoDup_nil_2. Qed.

Lemma elem_of_uniqueSkillsArray courses y :
  y ∈ uniqueSkillsArray courses ↔ ∃ c, c ∈ courses ∧ y ∈ courseSkills c.
Proof.
  unfold uniqueSkillsArray.
  rewrite (merge_sort_Permutation JsString.le). apply elem_of_collectSkills.
Qed.

Lemma NoDup_uniqueSkillsArray courses : NoDup (uniqueSkillsArray courses).
Proof.
  unfold uniqueSkillsArray.
  rewrite (merge_sort_Permutation JsString.le). apply NoDup_collectSkills.
Qed.

Lemma sorted_uniqueSkillsArray courses :
  StronglySorted JsString.le (uniqueSkillsArray courses).
Proof. apply (StronglySorted_merge_sort JsString.le). Qed.

(** ** The record builder *)

Lemma startsWith_app p s : startsWith p (p ++ s) = true.
Proof. induction p as [|c p IH]; cbn; [done|]. by rewrite N.eqb_refl. Qed.

Lemma mapM_returns {A B} (f : A → completion B) (P : B → Prop) (l : list A) :
  (∀ a, ∃ b, f a = Return b ∧ P b) →
  ∃ bs, mapM f l = Return bs ∧ Forall P bs.
Proof.
  intros Hf. induction l as [|a l (bs & Hbs & HP)]; cbn.
  - exists []. split; [reflexivity | constructor].
  - destruct (Hf a) as (b & -> & Hb). cbn. rewrite Hbs. cbn.
    exists (b :: bs). split; [reflexivity | by constructor].
Qed.

Section Builder.
Context {selection : Type} `{Cheerio selection}.

(** The builder never throws, and every field of the record is what its own
    lookups give. *)
Lemma extractCard_fields (card : selection) :
  ∃ c, extractCard card = Return c
    ∧ Course.title c = trim (text (find card (js "h3.cds-CommonCard-title")))
    ∧ Course.partner c
      = trim (text (find card (js "p.cds-ProductCard-partnerNames")))
    ∧ Course.rating c
      = orElse (trim (text (find card (js "span.css-4s48ix")))) (js "-")
    ∧ convertReviewsToNumeric (VString (reviewsText card))
      = Return (Course.reviews c)
    ∧ cleanSkills (VString (skillsText card)) = Return (Course.skills c)
    ∧ extractMetadata (VString (metadataText card))
      = Return (Course.level c, Course.type_ c, Course.duration c)
    ∧ Course.url c = cardUrl card
    ∧ Course.plus c
      = (if bool_decide
              (size (find card (js "div[data-testid=" ++ [34] ++
                                js "product-card-coursera-plus" ++ [34] ++
                                js "]")) ≠ 0%nat)
         then js "plus" else js "-")
    ∧ Course.degree c
      = (if bool_decide (size (find card (js "p.css-ls7ln4")) ≠ 0%nat)
            && includes (js "Build toward a degree")
                 (text (find card (js "p.css-ls7ln4")))
         then js "degree" else js "-").
Proof.
  unfold extractCard.
  destruct (convertReviewsToNumeric_string (reviewsText card)) as (n & -> & _).
  destruct (cleanSkills_string (skillsText card)) as (sk & ->).
  destruct (extractMetadata_string (metadataText card)) as ([[l t] d] & ->).
  cbn. eexists. split; [reflexivity|]. cbn.
  repeat split; by destruct (trim _).
Qed.

Lemma text_of_none (sel : selection) : size sel = 0%nat → trim (text sel) = [].
Proof. intros Hsel. by rewrite text_empty. Qed.

Lemma reviewsText_none (card : selection) :
  let ratingElem := find card (js "span.css-4s48ix") in
  let nextElem := next ratingElem (js "div.css-vac8rf") in
  size ratingElem = 0%nat ∨ size nextElem = 0%nat
  ∨ includes (js "reviews") (toLowerCase (text nextElem)) = false →
  reviewsText card = [].
Proof.
  cbv zeta. unfold reviewsText. intros [Hr|[Hn|Hi]].
  - rewrite bool_decide_eq_false_2; [done | by intros []].
  - case_bool_decide; [|done]. rewrite bool_decide_eq_false_2; [done | by intros []].
  - case_bool_decide; [|done]. rewrite Hi, andb_false_r. done.
Qed.

Lemma reviewsText_some (card : selection) :
  let ratingElem := find card (js "span.css-4s48ix") in
  let nextElem := next ratingElem (js "div.css-vac8rf") in
  size ratingElem ≠ 0%nat → size nextElem ≠ 0%nat →
  includes (js "reviews") (toLowerCase (text nextElem)) = true →
  reviewsText card = trim (text nextElem).
Proof.
  cbv zeta. unfold reviewsText. intros Hr Hn Hi.
  rewrite !bool_decide_eq_true_2, Hi by done. reflexivity.
Qed.

(** C8: the builder makes a record of every card, whatever the card lacks.
    Without a rating element the rating is "-"; the review count is read
    from the element that follows the rating element when that element's
    text, in lower case, contains "reviews", and is 0 otherwise; each other
    field has its default when its element is absent; and a field is the
    same for two cards that agree on that field's own elements. *)
Theorem card_fields_degrade (card : selection) :
  let ratingElem := find card (js "span.css-4s48ix") in
  let nextElem := next ratingElem (js "div.css-vac8rf") in
  ∃ c, extractCard card = Return c
    ∧ (size ratingElem = 0%nat → Course.rating c = js "-")
    ∧ (size ratingElem ≠ 0%nat → size nextElem ≠ 0%nat →
       includes (js "reviews") (toLowerCase (text nextElem)) = true →
       convertReviewsToNumeric (VString (trim (text nextElem)))
       = Return (Course.reviews c))
    ∧ (size ratingElem = 0%nat ∨ size nextElem = 0%nat
       ∨ includes (js "reviews") (toLowerCase (text nextElem)) = false →
       Course.reviews c = Int 0)
    ∧ (size (find card (js "h3.cds-CommonCard-title")) = 0%nat →
       Course.title c = [])
    ∧ (size (find card (js "p.cds-ProductCard-partnerNames")) = 0%nat →
       Course.partner c = [])
    ∧ (size (find card (js "div.cds-CommonCard-bodyContent")) = 0%nat →
       Course.skills c = [])
    ∧ (size (find card (js "div.cds-CommonCard-metadata")) = 0%nat →
       Course.level c = [] ∧ Course.type_ c = [] ∧ Course.duration c = [])
    ∧ (size (find card (js "a.cds-CommonCard-titleLink")) = 0%nat →
       Course.url c = [])
    ∧ (size (find card (js "div[data-testid=" ++ [34] ++
                         js "product-card-coursera-plus" ++ [34] ++
                         js "]")) = 0%nat →
       Course.plus c = js "-")
    ∧ (size (find card (js "p.css-ls7ln4")) = 0%nat → Course.degree c = js "-")
    ∧ ∀ card', ∃ c', extractCard card' = Return c'
        ∧ (find card' (js "h3.cds-CommonCard-title")
           = find card (js "h3.cds-CommonCard-title") →
           Course.title c' = Course.title c)
        ∧ (find card' (js "p.cds-ProductCard-partnerNames")
           = find card (js "p.cds-ProductCard-partnerNames") →
           Course.partner c' = Course.partner c)
        ∧ (find card' (js "span.css-4s48ix") = ratingElem →
           Course.rating c' = Course.rating c
           ∧ Course.reviews c' = Course.reviews c)
        ∧ (find card' (js "div.cds-CommonCard-bodyContent")
           = find card (js "div.cds-CommonCard-bodyContent") →
           Course.skills c' = Course.skills c)
        ∧ (find card' (js "div.cds-CommonCard-metadata")
           = find card (js "div.cds-CommonCard-metadata") →
           Course.level c' = Course.level c
           ∧ Course.type_ c' = Course.type_ c
           ∧ Course.duration c' = Course.duration c)
        ∧ (find card' (js "a.cds-CommonCard-titleLink")
           = find card (js "a.cds-CommonCard-titleLink") →
           Course.url c' = Course.url c).
Proof.
  cbv zeta.
  destruct (extractCard_fields card)
    as (c & Hc & Htitle & Hpartner & Hrating & Hreviews & Hskills & Hmeta
        & Hurl & Hplus & Hdegree).
  exists c. split; [exact Hc|].
  split. { intros Hnone. by rewrite Hrating, text_of_none. }
  split. { intros Hr Hn Hi. by rewrite <- reviewsText_some. }
  split.
  { intros Hnone%reviewsText_none. rewrite Hnone in Hreviews.
    by injection Hreviews. }
  split. { intros Hnone. by rewrite Htitle, text_of_none. }
  split. { intros Hnone. by rewrite Hpartner, text_of_none. }
  split.
  { intros Hnone. unfold skillsText in Hskills.
    rewrite bool_decide_eq_false_2 in Hskills by (by intros []).
    by injection Hskills. }
  split.
  { intros Hnone. unfold metadataText in Hmeta.
    rewrite bool_decide_eq_false_2 in Hmeta by (by intros []).
    by injection Hmeta. }
  split.
  { intros Hnone. rewrite Hurl. unfold cardUrl.
    rewrite bool_decide_eq_false_2; [done | by intros []]. }
  split.
  { intros Hnone. rewrite Hplus.
    rewrite bool_decide_eq_false_2; [done | by intros []]. }
  split.
  { intros Hnone. rewrite Hdegree.
    rewrite bool_decide_eq_false_2; [done | by intros []]. }
  intros card'.
  destruct (extractCard_fields card')
    as (c' & Hc' & Htitle' & Hpartner' & Hrating' & Hreviews' & Hskills'
        & Hmeta' & Hurl' & _).
  exists c'. split; [exact Hc'|].
  split. { intros Hsame. by rewrite Htitle', Htitle, Hsame. }
  split. { intros Hsame. by rewrite Hpartner', Hpartner, Hsame. }
  split.
  { intros Hsame. split; [by rewrite Hrating', Hrating, Hsame|].
    unfold reviewsText in Hreviews'. rewrite Hsame in Hreviews'.
    fold (reviewsText card) in Hreviews'. congruence. }
  split.
  { intros Hsame. unfold skillsText in Hskills'. rewrite Hsame in Hskills'.
    fold (skillsText card) in Hskills'. congruence. }
  split.
  { intros Hsame. unfold metadataText in Hmeta'. rewrite Hsame in Hmeta'.
    fold (metadataText card) in Hmeta'.
    rewrite Hmeta in Hmeta'. by injection Hmeta' as -> -> ->. }
  intros Hsame. rewrite Hurl', Hurl. unfold cardUrl. by rewrite Hsame.
Qed.


End Builder.

Lemma card_fields_degrade_witness :
  (∃ c, extractCard (wrap emptyCard) = Return c
     ∧ Course.rating c = js "-" ∧ Course.reviews c = Int 0
     ∧ Course.title c = [] ∧ Course.url c = [])
  ∧ (∃ c, extractCard (wrap (exampleCard (js "12K reviews") (js "Python")
                              (js "Beginner"))) = Return c
       ∧ Course.reviews c = Int 12000).
Proof.
  split.
  - destruct (card_fields_degrade (wrap emptyCard))
      as (c & Hc & Hrating & _ & Hreviews & Htitle & _ & _ & _ & Hurl & _).
    exists c. split; [exact Hc|].
    split; [apply Hrating; reflexivity|].
    split; [apply Hreviews; left; reflexivity|].
    split; [apply Htitle; reflexivity | apply Hurl; reflexivity].
  - destruct (card_fields_degrade
                (wrap (exampleCard (js "12K reviews") (js "Python")
                         (js "Beginner"))))
      as (c & Hc & _ & Hreviews & _).
    exists c. split; [exact Hc|].
    assert (Return (Int 12000) = Return (Course.reviews c)) as Heq.
    { rewrite <- Hreviews; [by vm_compute | by vm_compute ..]. }
    by injection Heq.
Defined.



(** ** Export rows *)










(** C7: with no courses [saveToCsv] writes nothing: the files are as they
    were, and the console gets the one line "No courses found.". *)
Theorem saveToCsv_no_courses (outputFile : jsstring)
  (uniqueSkills : list jsstring) (p : process) :
  saveToCsv [] outputFile uniqueSkills p
  = {| console := console p ++ [NoCoursesFound]; files := files p |}.
Proof. reflexivity. Qed.

(** ** The scroll loop *)

Section ScrollLoop.
Variable extents : nat → Z.

Local Abbreviation at_ := (sessionAt extents).

Lemma rounds_S from count :
  rounds extents from (S count)
  = [ScrollToBottom; Sleep 1000; Measure (extents from)]
    ++ rounds extents (S from) count.
Proof. reflexivity. Qed.

(** While no measurement repeats the one before it, the loop goes on. *)
Lemma scrollLoop_running fuel : ∀ m t,
  (∀ i, m ≤ i < m + fuel → extents (S i) ≠ extents i)%nat →
  scrollLoop fuel (extents m) (at_ (S m) t) = None.
Proof.
  induction fuel as [|fuel IH]; intros m t Hne; [reflexivity|].
  cbn. destruct (Z.eqb_spec (extents (S m)) (extents m)) as [Heq|_].
  - exfalso. apply (Hne m); [lia | exact Heq].
  - apply IH. intros i Hi. apply Hne. lia.
Qed.

(** It ends at the first measurement [S k] that repeats the one before. *)
Lemma scrollLoop_stops fuel : ∀ m t k,
  (m ≤ k)%nat →
  (∀ i, m ≤ i < k → extents (S i) ≠ extents i)%nat →
  extents (S k) = extents k →
  scrollLoop fuel (extents m) (at_ (S m) t)
  = if decide (fuel ≤ k - m)%nat then None
    else Some (at_ (S (S k)) (t ++ rounds extents (S m) (S (k - m)))).
Proof.
  induction fuel as [|fuel IH]; intros m t k Hmk Hne Heq.
  - rewrite decide_True by lia. reflexivity.
  - cbn. destruct (decide (m = k)) as [->|Hm].
    + destruct (Z.eqb_spec (extents (S k)) (extents k)) as [_|Hbad]; [|done].
      rewrite decide_False by lia.
      replace (k - k)%nat with O by lia.
      unfold sessionAt, rounds. cbn. rewrite <- !app_assoc. reflexivity.
    + destruct (Z.eqb_spec (extents (S m)) (extents m)) as [Hbad|_].
      { exfalso. apply (Hne m); [lia | exact Hbad]. }
      fold (at_ (S (S m))
              (((t ++ [ScrollToBottom]) ++ [Sleep 1000]) ++ [Measure (extents (S m))])).
      rewrite (IH (S m) _ k) by (try lia; try assumption; intros; apply Hne; lia).
      destruct (decide (fuel ≤ k - S m)%nat), (decide (S fuel ≤ k - m)%nat);
        try lia; [reflexivity|].
      f_equal. unfold sessionAt. f_equal.
      rewrite <- !app_assoc. cbn.
      replace (k - m)%nat with (S (k - S m)) by lia. reflexivity.
Qed.

End ScrollLoop.

Lemma loadPage_running (extents : nat → Z) (fuel : nat) :
  (∀ i, i < fuel → extents (S i) ≠ extents i)%nat →
  loadPage fuel (fresh extents) = None.
Proof.
  intros Hne. unfold loadPage, fresh, scrollHeight. cbn.
  rewrite scrollLoop_running; [reflexivity|].
  intros i Hi. apply Hne. lia.
Qed.

Lemma loadPage_stops (extents : nat → Z) (k fuel : nat) :
  (∀ i, i < k → extents (S i) ≠ extents i)%nat →
  extents (S k) = extents k →
  loadPage fuel (fresh extents)
  = if decide (fuel ≤ k)%nat then None
    else Some {| extent := extents; measured := k + 2;
                 trace := Measure (extents 0%nat)
                          :: rounds extents 1 (S k) ++ [PageSource] |}.
Proof.
  intros Hne Heq. unfold loadPage, fresh, scrollHeight. cbn.
  rewrite (scrollLoop_stops extents fuel 0 _ k)
    by (try lia; try assumption; intros; apply Hne; lia).
  replace (k - 0)%nat with k by lia.
  destruct (decide (fuel ≤ k)%nat); [reflexivity|].
  cbn. unfold perform. cbn. do 2 f_equal. lia.
Qed.

(** C6: on a page whose measurements start 100, 200, 200 the loop leaves at
    the third measurement, after two iterations and not after one, whatever
    the page would report later and however many more iterations would be
    allowed; the session is then asked for the page source, once. *)
Theorem scroll_100_200_200 (rest : nat → Z) (fuel : nat) :
  let d := fresh (extentsFrom [100; 200; 200]%Z rest) in
  let done :=
    {| extent := extent d; measured := 3;
       trace := [Measure 100; ScrollToBottom; Sleep 1000; Measure 200;
                 ScrollToBottom; Sleep 1000; Measure 200; PageSource] |} in
  loadPage 1 d = None ∧
  loadPage (2 + fuel) d = Some done ∧
  count_occ action_eq_dec (trace done) PageSource = 1%nat.
Proof.
  cbv zeta. split; [reflexivity|]. split; [|reflexivity].
  rewrite (loadPage_stops _ 1).
  - rewrite decide_False by lia. reflexivity.
  - intros i Hi. assert (i = 0%nat) as -> by lia. vm_compute. discriminate.
  - reflexivity.
Qed.

(** C3, as stated, fails: on a page that grows at every measurement no
    number of iterations brings the loop to its end. *)
Lemma scroll_loop_never_ends_on_growing_page :
  ¬ ∃ bound, is_Some (loadPage bound (fresh everGrowing)).
Proof.
  intros [bound Hsome]. rewrite loadPage_running in Hsome.
  - destruct Hsome as [d Hd]. discriminate.
  - intros i _. unfold everGrowing. lia.
Qed.

(** C3, amended: the loop has no bound of its own.  It leaves exactly at the
    first measurement that repeats the one before it, after as many
    iterations as that takes ([k + 1] when measurement [k + 1] is the first
    repeat, so that no smaller allowance suffices), and then reads the page
    source; when no measurement ever repeats its predecessor it never
    leaves, and there is no other outcome. *)
Theorem scroll_loop_unbounded (extents : nat → Z) :
  (∀ k, (∀ i, i < k → extents (S i) ≠ extents i)%nat →
        extents (S k) = extents k →
        ∀ fuel,
          loadPage fuel (fresh extents)
          = if decide (fuel ≤ k)%nat then None
            else Some {| extent := extents; measured := k + 2;
                         trace := Measure (extents 0%nat)
                                  :: rounds extents 1 (S k) ++ [PageSource] |})
  ∧ ((∀ i, extents (S i) ≠ extents i) →
     ∀ fuel, loadPage fuel (fresh extents) = None).
Proof.
  split.
  - intros k Hne Heq fuel. apply loadPage_stops; assumption.
  - intros Hne fuel. apply loadPage_running. intros i _. apply Hne.
Qed.

Lemma scroll_loop_unbounded_witness :
  let slow := λ n : nat, Z.of_nat (n `min` 5) in
  loadPage 5 (fresh slow) = None ∧
  is_Some (loadPage 6 (fresh slow)) ∧
  loadPage 1000 (fresh everGrowing) = None.
Proof.
  cbv zeta. split; [|split].
  - destruct (scroll_loop_unbounded (λ n : nat, Z.of_nat (n `min` 5))) as [H _].
    rewrite (H 5%nat).
    + reflexivity.
    + intros i Hi. do 5 (destruct i as [|i]; [vm_compute; discriminate|]). lia.
    + reflexivity.
  - destruct (scroll_loop_unbounded (λ n : nat, Z.of_nat (n `min` 5))) as [H _].
    rewrite (H 5%nat).
    + eexists. reflexivity.
    + intros i Hi. do 5 (destruct i as [|i]; [vm_compute; discriminate|]). lia.
    + reflexivity.
  - destruct (scroll_loop_unbounded everGrowing) as [_ H].
    apply H. intros i. unfold everGrowing. lia.
Defined.

(** ** Further examples *)

Example trim_example : trim (js "  Python  ") = js "Python".
Proof. reflexivity. Qed.

Example split_example :
  split (js ",") (js "a,b,,c,") = [js "a"; js "b"; []; js "c"; []].
Proof. reflexivity. Qed.

(** The leftmost match wins, and a match may start inside a longer number. *)
Example convertReviewsToNumeric_leftmost :
  convertReviewsToNumeric (VString (js "(1.2.35K reviews) 7M"))
  = Return (Int 2350).
Proof. by vm_compute. Qed.

(** No suffixed number: the first run of digits. *)
Example convertReviewsToNumeric_first_digits :
  convertReviewsToNumeric (VString (js "12.K reviews, 7 new")) = Return (Int 12).
Proof. by vm_compute. Qed.

(** * More about the code *)

(** ** Doubles with whole values *)

Section Whole.
Local Open Scope Z_scope.

Lemma digits2_bounds p :
  2 ^ (Z.pos (digits2_pos p) - 1) ≤ Z.pos p < 2 ^ Z.pos (digits2_pos p).
Proof.
  induction p as [p IH|p IH|]; cbn [digits2_pos]; [| |done].
  all: rewrite Pos2Z.inj_succ.
  all: replace (Z.succ (Z.pos (digits2_pos p)) - 1)
         with (Z.succ (Z.pos (digits2_pos p) - 1)) by lia.
  all: rewrite !Z.pow_succ_r by lia; lia.
Qed.

Lemma Zdigits2_unique n d :
  2 ^ (d - 1) ≤ n < 2 ^ d → 0 < d → Zdigits2 n = d.
Proof.
  intros [Hlo Hhi] Hd.
  assert (0 < n) as Hn by (pose proof (Z.pow_pos_nonneg 2 (d - 1)); lia).
  destruct n as [|p|p]; try lia. cbn.
  pose proof (digits2_bounds p) as [Hlo' Hhi'].
  destruct (Z.lt_trichotomy (Z.pos (digits2_pos p)) d) as [Hlt|[Heq|Hgt]];
    [|done|].
  - assert (2 ^ Z.pos (digits2_pos p) ≤ 2 ^ (d - 1))
      by (apply Z.pow_le_mono_r; lia). lia.
  - assert (2 ^ d ≤ 2 ^ (Z.pos (digits2_pos p) - 1))
      by (apply Z.pow_le_mono_r; lia). lia.
Qed.

Lemma Zdigits2_bounds n :
  0 < n → 2 ^ (Zdigits2 n - 1) ≤ n < 2 ^ Zdigits2 n ∧ 0 < Zdigits2 n.
Proof.
  destruct n as [|p|p]; try lia. intros _. cbn.
  split; [apply digits2_bounds | lia].
Qed.

Lemma Zdigits2_mul_pow2 n j :
  0 < n → 0 ≤ j → Zdigits2 (n * 2 ^ j) = Zdigits2 n + j.
Proof.
  intros Hn Hj. destruct (Zdigits2_bounds n Hn) as [[Hlo Hhi] Hd].
  apply Zdigits2_unique; [|lia].
  replace (Zdigits2 n + j - 1) with (Zdigits2 n - 1 + j) by lia.
  rewrite !Z.pow_add_r by lia.
  pose proof (Z.pow_pos_nonneg 2 j). nia.
Qed.

Lemma shr_1_even m :
  0 ≤ m →
  shr_1 (Build_shr_record (2 * m) false false) = Build_shr_record m false false.
Proof. destruct m as [|p|p]; [done|done|lia]. Qed.

Lemma iter_shr_1_exact p : ∀ m,
  0 ≤ m →
  SpecFloat.iter_pos shr_1 p (Build_shr_record (m * 2 ^ Z.pos p) false false)
  = Build_shr_record m false false.
Proof.
  induction p as [p IH|p IH|]; intros m Hm; cbn [SpecFloat.iter_pos].
  - replace (m * 2 ^ Z.pos p~1) with (2 * ((m * 2 ^ Z.pos p) * 2 ^ Z.pos p)).
    + rewrite shr_1_even, IH, IH by (try apply Z.mul_nonneg_nonneg; lia). done.
    + assert (Z.pos p~1 = Z.pos p + Z.pos p + 1) as -> by lia.
      rewrite !Z.pow_add_r by lia. ring.
  - replace (m * 2 ^ Z.pos p~0) with ((m * 2 ^ Z.pos p) * 2 ^ Z.pos p).
    + rewrite IH, IH by (try apply Z.mul_nonneg_nonneg; lia). done.
    + assert (Z.pos p~0 = Z.pos p + Z.pos p) as -> by lia.
      rewrite !Z.pow_add_r by lia. ring.
  - replace (m * 2 ^ 1) with (2 * m) by lia. by apply shr_1_even.
Qed.

Lemma shr_exact m e t :
  0 ≤ m → 0 ≤ t →
  shr (Build_shr_record (m * 2 ^ t) false false) e t
  = (Build_shr_record m false false, e + t).
Proof.
  intros Hm Ht. destruct t as [|p|p]; [|by cbn; rewrite iter_shr_1_exact|lia].
  cbn. by rewrite Z.mul_1_r, Z.add_0_r.
Qed.

Lemma fexp_small d : -1020 ≤ d → fexp prec emax d = d - 53.
Proof. unfold fexp, SpecFloat.emin, prec, emax. lia. Qed.

Lemma round_exact (m : positive) (n j : Z) :
  0 < n → Z.pos m = n * 2 ^ j → 0 ≤ j →
  53 ≤ Zdigits2 n + j → Zdigits2 n ≤ 53 →
  integral (binary_round_aux prec emax false (Z.pos m) (- j) loc_Exact) n.
Proof.
  intros Hn Hm Hj Hlong Hshort.
  destruct (Zdigits2_bounds n Hn) as [_ Hd].
  set (d := Zdigits2 n) in *.
  assert (0 < n * 2 ^ (53 - d)) as Hpos
    by (apply Z.mul_pos_pos; [done | apply Z.pow_pos_nonneg; lia]).
  unfold binary_round_aux, shr_fexp.
  rewrite Hm, Zdigits2_mul_pow2 by done. fold d.
  rewrite fexp_small by lia. cbn [shr_record_of_loc].
  replace (n * 2 ^ j) with ((n * 2 ^ (53 - d)) * 2 ^ (d + j + - j - 53 - - j)).
  2:{ rewrite <- Z.mul_assoc, <- Z.pow_add_r by lia. do 2 f_equal. lia. }
  rewrite shr_exact by lia. cbn [shr_m loc_of_shr_record round_nearest_even].
  rewrite Zdigits2_mul_pow2 by lia. fold d.
  rewrite fexp_small by lia.
  replace (d + (53 - d) + (- j + (d + j + - j - 53 - - j)) - 53
           - (- j + (d + j + - j - 53 - - j))) with 0 by lia.
  cbn [shr shr_m].
  destruct (n * 2 ^ (53 - d)) as [|M|M] eqn:HM; try lia.
  replace (- j + (d + j + - j - 53 - - j)) with (- (53 - d)) by lia.
  replace (- (53 - d) <=? emax - prec) with true
    by (symmetry; apply Z.leb_le; unfold emax, prec; lia).
  exists M, (53 - d). split; [done|]. split; [lia|]. split; [lia|]. fold d. lia.
Qed.

Lemma Zdigits2_le n k : 0 < n → n < 2 ^ k → 0 ≤ k → Zdigits2 n ≤ k.
Proof.
  intros Hn Hk Hk0. destruct (Zdigits2_bounds n Hn) as [[Hlo _] Hd].
  destruct (Z.le_gt_cases (Zdigits2 n) k) as [|Hgt]; [done|].
  assert (2 ^ k ≤ 2 ^ (Zdigits2 n - 1)) by (apply Z.pow_le_mono_r; lia). lia.
Qed.

Lemma Zdigits2_gt n k : 0 ≤ k → 2 ^ k ≤ n → k < Zdigits2 n.
Proof.
  intros Hk0 Hk.
  assert (0 < n) as Hn by (pose proof (Z.pow_pos_nonneg 2 k); lia).
  destruct (Zdigits2_bounds n Hn) as [[_ Hhi] Hd].
  destruct (Z.lt_ge_cases k (Zdigits2 n)) as [|Hge]; [done|].
  assert (2 ^ Zdigits2 n ≤ 2 ^ k) by (apply Z.pow_le_mono_r; lia). lia.
Qed.

Lemma integral_pos x n : integral x n → 0 < n.
Proof.
  intros (m & j & _ & Hj & Hm & _).
  pose proof (Z.pow_pos_nonneg 2 j). nia.
Qed.

Lemma Pos_iter_xO p k : Z.pos (Pos.iter xO p k) = Z.pos p * 2 ^ Z.pos k.
Proof.
  induction k as [|k IH] using Pos.peano_ind.
  - cbn. lia.
  - rewrite Pos.iter_succ, Pos2Z.inj_xO, IH, Pos2Z.inj_succ, Z.pow_succ_r by lia.
    ring.
Qed.

Lemma ofZ_integral n : 0 < n < 2 ^ 53 → integral (ofZ n) n.
Proof.
  intros [Hn Hhi]. destruct n as [|p|p]; try lia.
  pose proof (Zdigits2_le _ 53 Hn Hhi ltac:(lia)) as Hd.
  destruct (Zdigits2_bounds _ Hn) as [_ Hd0]. cbn [Zdigits2] in Hd, Hd0.
  unfold ofZ, binary_normalize, binary_round.
  rewrite Z.add_0_r, fexp_small by lia. unfold shl_align.
  destruct (Z.pos (digits2_pos p) - 53 - 0) as [|k|k] eqn:Hk; try lia.
  - apply (round_exact p (Z.pos p) 0); cbn [Zdigits2]; lia.
  - replace (Z.pos (digits2_pos p) - 53) with (- Z.pos k) by lia.
    apply round_exact; cbn [Zdigits2]; try lia. apply Pos_iter_xO.
Qed.

Lemma ofRatio_integral n : 0 < n < 2 ^ 53 → integral (ofRatio n 1) n.
Proof.
  intros [Hn Hhi]. destruct n as [|p|p]; try lia.
  pose proof (Zdigits2_le _ 53 Hn Hhi ltac:(lia)) as Hd.
  destruct (Zdigits2_bounds _ Hn) as [_ Hd0]. cbn [Zdigits2] in Hd, Hd0.
  unfold ofRatio, SFdiv, SFdiv_core_binary. cbn [Zdigits2 digits2_pos].
  rewrite !Z.add_0_r, Z.sub_0_r, fexp_small by lia.
  rewrite Z.min_l by lia.
  destruct (0 - (Z.pos (digits2_pos p) - 1 - 53)) as [|s|s] eqn:Hs; try lia.
  rewrite Z.shiftl_mul_pow2 by lia.
  pose proof (Z_div_mod (Z.pos p * 2 ^ Z.pos s) 1 ltac:(lia)) as Hdiv.
  destruct (Z.div_eucl (Z.pos p * 2 ^ Z.pos s) 1) as [q r].
  destruct Hdiv as [Hq Hr]. assert (r = 0) as -> by lia.
  assert (q = Z.pos p * 2 ^ Z.pos s) as -> by lia.
  change (new_location 1 0) with loc_Exact.
  assert (0 < Z.pos p * 2 ^ Z.pos s) as Hpos
    by (apply Z.mul_pos_pos; [done | apply Z.pow_pos_nonneg; lia]).
  destruct (Z.pos p * 2 ^ Z.pos s) as [|m|m] eqn:Hm; try lia.
  replace (Z.pos (digits2_pos p) - 1 - 53) with (- Z.pos s) by lia.
  apply round_exact; cbn [Zdigits2]; lia.
Qed.

Lemma mul_integral x y a b :
  integral x a → integral y b → a * b < 2 ^ 53 → integral (mul x y) (a * b).
Proof.
  intros Hx Hy Hab.
  pose proof (integral_pos _ _ Hx) as Ha. pose proof (integral_pos _ _ Hy) as Hb.
  destruct Hx as (ma & ja & -> & Hja & Hma & Hda).
  destruct Hy as (mb & jb & -> & Hjb & Hmb & Hdb).
  destruct (Zdigits2_bounds a Ha) as [[Hloa _] Hda0].
  destruct (Zdigits2_bounds b Hb) as [[Hlob _] Hdb0].
  assert (0 < a * b) as Hpos by lia.
  assert (Zdigits2 a + Zdigits2 b - 2 < Zdigits2 (a * b)) as Hlong.
  { apply Zdigits2_gt; [lia|].
    replace (Zdigits2 a + Zdigits2 b - 2)
      with ((Zdigits2 a - 1) + (Zdigits2 b - 1)) by lia.
    rewrite Z.pow_add_r by lia. nia. }
  unfold mul, SFmul. cbn [xorb].
  replace (- ja + - jb) with (- (ja + jb)) by lia.
  apply round_exact; try lia.
  - rewrite Pos2Z.inj_mul, Hma, Hmb, Z.pow_add_r by lia. ring.
  - by apply Zdigits2_le.
Qed.

Lemma floor_integral x n : integral x n → floor x = Int n.
Proof.
  intros (m & j & -> & Hj & Hm & _). unfold floor. f_equal.
  destruct j as [|k|k]; try lia.
  - change (- 0) with 0. rewrite Z.shiftl_0_r. rewrite Z.pow_0_r in Hm. lia.
  - change (- Z.pos k) with (Z.neg k).
    rewrite Hm, Z.shiftr_div_pow2, Z.div_mul by lia. done.
Qed.

(** Whole numbers scale exactly. *)
Lemma scaled_whole n k :
  0 ≤ n → 0 < k < 2 ^ 53 → n * k < 2 ^ 53 →
  floor (mul (ofRatio n 1) (ofZ k)) = Int (n * k).
Proof.
  intros Hn Hk Hnk. destruct (decide (n = 0)) as [->|Hn0].
  - destruct (ofZ_integral k Hk) as (m & j & -> & _). done.
  - apply floor_integral, mul_integral; [|by apply ofZ_integral|done].
    apply ofRatio_integral. nia.
Qed.

Lemma parseInt_whole n : 0 ≤ n < 2 ^ 53 → floor (ofZ n) = Int n.
Proof.
  intros [Hn Hhi]. destruct (decide (n = 0)) as [->|Hn0]; [done|].
  apply floor_integral, ofZ_integral. lia.
Qed.

End Whole.

(** ** The matcher on a run of digits *)

Section Greedy.
Context {R : Type}.
Implicit Types (k : jsstring → captures → option R) (x : R).

Lemma digit_fails s caps k : startsNoDigit s → rmatch Digit s caps k = None.
Proof.
  intros Hs. destruct s as [|c s]; [done|]. cbn. by rewrite (Hs c).
Qed.

(** A run of digits is taken whole when what follows it can go on from its end. *)
Lemma many_digits k x caps rest : ∀ ds fuel,
  Forall (λ c, isDigit c = true) ds → startsNoDigit rest →
  (length ds ≤ fuel)%nat →
  k rest caps = Some x →
  many (rmatch Digit) k fuel (ds ++ rest) caps = Some x.
Proof.
  induction ds as [|d ds IH]; intros fuel Hds Hrest Hfuel Hk.
  - destruct fuel as [|fuel]; [done|]. cbn [app many].
    by rewrite digit_fails.
  - destruct fuel as [|fuel]; [cbn in Hfuel; lia|].
    apply Forall_cons in Hds as [Hd Hds]. cbn [app many rmatch]. rewrite Hd.
    rewrite (proj2 (Nat.ltb_lt _ _)) by (cbn; lia).
    rewrite IH; [done..| |done]. cbn in Hfuel. lia.
Qed.

Lemma digits_plus k x caps rest d ds :
  Forall (λ c, isDigit c = true) (d :: ds) → startsNoDigit rest →
  k rest caps = Some x →
  rmatch (Plus Digit) ((d :: ds) ++ rest) caps k = Some x.
Proof.
  intros [Hd Hds]%Forall_cons Hrest Hk. cbn [app rmatch]. rewrite Hd.
  apply many_digits; try done. rewrite length_app. lia.
Qed.

End Greedy.

Section Unfold.
Context {R : Type}.
Implicit Types (k : jsstring → captures → option R).

Lemma rmatch_group i r s caps k :
  rmatch (Group i r) s caps k
  = rmatch r s caps (λ s' caps',
      k s' (<[i := take (length s - length s') s]> caps')).
Proof. reflexivity. Qed.

Lemma rmatch_seq r1 r2 s caps k :
  rmatch (Seq r1 r2) s caps k
  = rmatch r1 s caps (λ s' caps', rmatch r2 s' caps' k).
Proof. reflexivity. Qed.

Lemma rmatch_opt_skip r s caps k :
  rmatch r s caps k = None → rmatch (Opt r) s caps k = k s caps.
Proof. intros Hr. cbn [rmatch]. by rewrite Hr. Qed.

Lemma rmatch_unit_hit c s caps k : rmatch (Unit c) (c :: s) caps k = k s caps.
Proof. cbn [rmatch]. by rewrite N.eqb_refl. Qed.

Lemma rmatch_unit_miss c y s caps k :
  y ≠ c → rmatch (Unit c) (y :: s) caps k = None.
Proof. intros Hy. cbn [rmatch]. by destruct (N.eqb_spec y c). Qed.

Lemma rmatch_alt_skip r1 r2 s caps k :
  rmatch r1 s caps k = None →
  rmatch (Alt r1 r2) s caps k = rmatch r2 s caps k.
Proof. intros Hr. cbn [rmatch]. by rewrite Hr. Qed.

Lemma rmatch_alt_hit r1 r2 s caps k x :
  rmatch r1 s caps k = Some x → rmatch (Alt r1 r2) s caps k = Some x.
Proof. intros Hr. cbn [rmatch]. by rewrite Hr. Qed.

End Unfold.

Lemma take_consumed (a b : jsstring) :
  take (length (a ++ b) - length b) (a ++ b) = a.
Proof. by rewrite length_app, Nat.add_sub, take_app_length. Qed.

Lemma digitRun_here d ds rest :
  Forall (λ c, isDigit c = true) (d :: ds) → startsNoDigit rest →
  rmatch digitRun ((d :: ds) ++ rest) ∅
    (λ s' caps, Some (<[O := take (length ((d :: ds) ++ rest) - length s')
                              ((d :: ds) ++ rest)]> caps))
  = Some (<[O := d :: ds]> (<[1%nat := d :: ds]> ∅)).
Proof.
  intros Hds Hrest. unfold digitRun. rewrite rmatch_group.
  erewrite digits_plus; [reflexivity|done..|].
  by rewrite !take_consumed.
Qed.

Lemma search_skip r pre s :
  (∀ c s' caps (k : jsstring → captures → option captures),
     isDigit c = false → rmatch r (c :: s') caps k = None) →
  Forall (λ c, isDigit c = false) pre →
  search r (pre ++ s) = search r s.
Proof.
  intros Hr. induction pre as [|c pre IH]; [done|].
  intros [Hc Hpre]%Forall_cons. cbn [app search]. by rewrite Hr, IH.
Qed.

Lemma digitRun_needs_digit c s caps (k : jsstring → captures → option captures) :
  isDigit c = false → rmatch digitRun (c :: s) caps k = None.
Proof. intros Hc. cbn. by rewrite Hc. Qed.

Lemma suffixedCount_needs_digit c s caps
  (k : jsstring → captures → option captures) :
  isDigit c = false → rmatch suffixedCount (c :: s) caps k = None.
Proof. intros Hc. cbn. by rewrite Hc. Qed.

Lemma search_digitRun pre d ds rest :
  Forall (λ c, isDigit c = false) pre →
  Forall (λ c, isDigit c = true) (d :: ds) → startsNoDigit rest →
  search digitRun (pre ++ (d :: ds) ++ rest)
  = Some (<[O := d :: ds]> (<[1%nat := d :: ds]> ∅)).
Proof.
  intros Hpre Hds Hrest.
  rewrite search_skip by (done || apply digitRun_needs_digit).
  change ((d :: ds) ++ rest) with (d :: (ds ++ rest)) at 1. cbn [search].
  change (d :: (ds ++ rest)) with ((d :: ds) ++ rest).
  by rewrite digitRun_here.
Qed.

Lemma search_none r text :
  (∀ c s' caps (k : jsstring → captures → option captures),
     isDigit c = false → rmatch r (c :: s') caps k = None) →
  rmatch r [] ∅ (λ s' caps, Some (<[O := take (length (@nil N) - length s') []]> caps)) = None →
  Forall (λ c, isDigit c = false) text → search r text = None.
Proof.
  intros Hr Hnil Htext. rewrite <- (app_nil_r text), search_skip by done.
  cbn [search]. by rewrite Hnil.
Qed.

Lemma suffixedCount_here d ds u post :
  Forall (λ c, isDigit c = true) (d :: ds) → u = 75 ∨ u = 77 →
  rmatch suffixedCount ((d :: ds) ++ u :: post) ∅
    (λ s' caps, Some (<[O := take (length ((d :: ds) ++ u :: post) - length s')
                              ((d :: ds) ++ u :: post)]> caps))
  = Some (<[O := (d :: ds) ++ [u]]> (<[2%nat := [u]]> (<[1%nat := d :: ds]> ∅))).
Proof.
  intros Hds Hu. unfold suffixedCount.
  rewrite rmatch_seq, rmatch_group, rmatch_seq.
  erewrite digits_plus; [reflexivity | done | |].
  { intros c [= <-]. by destruct Hu as [-> | ->]. }
  rewrite rmatch_opt_skip.
  2:{ rewrite rmatch_seq. apply rmatch_unit_miss. by destruct Hu as [-> | ->]. }
  rewrite rmatch_group, take_consumed.
  change (u :: post) with ([u] ++ post).
  destruct Hu as [-> | ->].
  - erewrite rmatch_alt_hit; [reflexivity|].
    change ([75] ++ post) with (75 :: post) at 1. rewrite rmatch_unit_hit.
    rewrite take_consumed. do 2 f_equal.
    rewrite (app_assoc (d :: ds) [75] post). apply take_consumed.
  - rewrite rmatch_alt_skip
      by (change ([77] ++ post) with (77 :: post); by apply rmatch_unit_miss).
    change ([77] ++ post) with (77 :: post) at 1. rewrite rmatch_unit_hit.
    change (77 :: post) with ([77] ++ post).
    rewrite take_consumed. do 2 f_equal.
    rewrite (app_assoc (d :: ds) [77] post). apply take_consumed.
Qed.

Lemma search_suffixedCount pre d ds u post :
  Forall (λ c, isDigit c = false) pre →
  Forall (λ c, isDigit c = true) (d :: ds) → u = 75 ∨ u = 77 →
  search suffixedCount (pre ++ (d :: ds) ++ u :: post)
  = Some (<[O := (d :: ds) ++ [u]]> (<[2%nat := [u]]> (<[1%nat := d :: ds]> ∅))).
Proof.
  intros Hpre Hds Hu.
  rewrite search_skip by (done || apply suffixedCount_needs_digit).
  change ((d :: ds) ++ u :: post) with (d :: (ds ++ u :: post)) at 1.
  cbn [search].
  change (d :: (ds ++ u :: post)) with ((d :: ds) ++ u :: post).
  by rewrite suffixedCount_here.
Qed.

Lemma search_part r s : ∀ m,
  search r s = Some m →
  ∃ before whole after caps,
    s = before ++ whole ++ after ∧ consumes r whole ∅ caps.
Proof.
  induction s as [|c s IH]; intros m; cbn [search].
  - destruct (rmatch r [] ∅ _) as [y|] eqn:Hhere; [|done]. intros _.
    apply rmatch_sound in Hhere as (s1 & s2 & caps & Hs & Hs1 & _).
    by exists [], s1, s2, caps.
  - destruct (rmatch r (c :: s) ∅ _) as [y|] eqn:Hhere.
    + intros _.
      apply rmatch_sound in Hhere as (s1 & s2 & caps & Hs & Hs1 & _).
      by exists [], s1, s2, caps.
    + intros (before & whole & after & caps & -> & Hwhole)%IH.
      by exists (c :: before), whole, after, caps.
Qed.

Lemma suffixedCount_has_unit whole caps caps' :
  consumes suffixedCount whole caps caps' → 75 ∈ whole ∨ 77 ∈ whole.
Proof.
  unfold suffixedCount.
  inversion 1 as [| |? ? g1 g2 ? ? ? _ H2| | | | | | |]; subst.
  inversion H2 as [| | | | | | | | |? ? ? ? ? Hunit]; subst.
  inversion Hunit as [| | |? ? ? ? ? Hl|? ? ? ? ? Hr| | | | |]; subst.
  - inversion Hl; subst. left. apply elem_of_app. right. left.
  - inversion Hr; subst. right. apply elem_of_app. right. left.
Qed.

Lemma search_suffixedCount_none text :
  75 ∉ text → 77 ∉ text → search suffixedCount text = None.
Proof.
  intros HK HM. destruct (search suffixedCount text) as [m|] eqn:Hm; [|done].
  apply search_part in Hm as (before & whole & after & caps & -> & Hwhole).
  apply suffixedCount_has_unit in Hwhole as [Hin|Hin]; exfalso.
  - apply HK. rewrite !elem_of_app. auto.
  - apply HM. rewrite !elem_of_app. auto.
Qed.

Lemma span_digits ds :
  Forall (λ c, isDigit c = true) ds → span isDigit ds = (ds, []).
Proof.
  induction ds as [|d ds IH]; [done|]. intros [Hd Hds]%Forall_cons.
  cbn. by rewrite Hd, IH.
Qed.

(** ** Field extractors *)

(** [convertReviewsToNumeric] returns on an absent argument and on every
    string, and what it returns is a non-negative integer or plus infinity:
    never NaN, never a negative number. *)
Theorem convertReviewsToNumeric_total (reviewsText : option jsstring) :
  ∃ n, convertReviewsToNumeric (from_option VString VUndefined reviewsText)
       = Return n ∧ isCount n.
Proof.
  destruct reviewsText as [text|]; cbn.
  - apply convertReviewsToNumeric_string.
  - eauto using zero_count.
Qed.

Lemma parseFloat_digits d ds :
  Forall (λ c, isDigit c = true) (d :: ds) →
  parseFloat (d :: ds) = ofRatio (decimal (d :: ds)) 1.
Proof.
  intros Hds. unfold parseFloat. rewrite span_digits by done.
  by rewrite app_nil_r.
Qed.

Lemma parseInt_digits d ds :
  Forall (λ c, isDigit c = true) (d :: ds) →
  parseInt (d :: ds) = floor (ofZ (decimal (d :: ds))).
Proof. intros Hds. unfold parseInt. by rewrite span_digits. Qed.

(** A text without a digit counts as 0. *)
Theorem convertReviewsToNumeric_no_digits (text : jsstring) :
  Forall (λ c, isDigit c = false) text →
  convertReviewsToNumeric (VString text) = Return (Int 0).
Proof.
  intros Htext. unfold convertReviewsToNumeric.
  destruct (negb _); [done|].
  rewrite (search_none suffixedCount), (search_none digitRun);
    auto using digitRun_needs_digit, suffixedCount_needs_digit.
Qed.

Lemma convertReviewsToNumeric_no_digits_witness :
  convertReviewsToNumeric (VString (js "No reviews yet (K)")) = Return (Int 0).
Proof.
  apply convertReviewsToNumeric_no_digits.
  by apply (bool_decide_unpack _).
Defined.

(** A whole number right before K or M, with no digit earlier in the text,
    is scaled exactly, by 1000 or by 1000000, as long as the result is below
    2^53: the loss of the fractional case does not touch whole numbers. *)
Theorem convertReviewsToNumeric_whole (before ds after : jsstring) (unit : N) :
  Forall (λ c, isDigit c = false) before →
  ds ≠ [] → Forall (λ c, isDigit c = true) ds →
  unit = 75 ∨ unit = 77 →
  (decimal ds * scaleOf unit < 2 ^ 53)%Z →
  convertReviewsToNumeric (VString (before ++ ds ++ unit :: after))
  = Return (Int (decimal ds * scaleOf unit)).
Proof.
  intros Hbefore Hne Hds Hunit Hsmall. destruct ds as [|d ds]; [done|].
  unfold convertReviewsToNumeric.
  assert (truthy (VString (before ++ (d :: ds) ++ unit :: after)) = true) as ->.
  { cbn [truthy]. rewrite bool_decide_eq_false_2; [done|].
    by destruct before. }
  cbn [negb]. rewrite search_suffixedCount by done.
  set (m := <[O := _]> _).
  assert (group 1 m = d :: ds) as -> by (unfold group, m; by simplify_map_eq).
  assert (group 2 m = [unit]) as -> by (unfold group, m; by simplify_map_eq).
  clear m. cbv zeta. rewrite parseFloat_digits by done.
  pose proof (decimal_nonneg (d :: ds)) as Hn.
  destruct Hunit as [-> | ->]; unfold scaleOf in *; cbn [N.eqb Pos.eqb] in *.
  - rewrite bool_decide_eq_true_2 by done.
    by rewrite scaled_whole.
  - rewrite bool_decide_eq_false_2, bool_decide_eq_true_2 by done.
    by rewrite scaled_whole.
Qed.

Lemma convertReviewsToNumeric_whole_witness :
  convertReviewsToNumeric (VString (js "(" ++ js "151" ++ 75 :: js " reviews)"))
  = Return (Int 151000).
Proof.
  apply (convertReviewsToNumeric_whole (js "(") (js "151") (js " reviews)") 75);
    [by apply (bool_decide_unpack _) | discriminate
    | by apply (bool_decide_unpack _) | by left | by vm_compute].
Defined.

(** In a text without K and M the count is the first run of digits, read
    exactly as long as it is below 2^53. *)
Theorem convertReviewsToNumeric_plain (before ds after : jsstring) :
  Forall (λ c, isDigit c = false) before →
  ds ≠ [] → Forall (λ c, isDigit c = true) ds →
  startsNoDigit after →
  75 ∉ before ++ after → 77 ∉ before ++ after →
  (decimal ds < 2 ^ 53)%Z →
  convertReviewsToNumeric (VString (before ++ ds ++ after))
  = Return (Int (decimal ds)).
Proof.
  intros Hbefore Hne Hds Hafter HK HM Hsmall. destruct ds as [|d ds]; [done|].
  assert (∀ u, u = 75 ∨ u = 77 → u ∉ d :: ds) as Hdigits.
  { intros u Hu Hin. rewrite Forall_forall in Hds.
    apply Hds in Hin. by destruct Hu as [-> | ->]. }
  unfold convertReviewsToNumeric.
  assert (truthy (VString (before ++ (d :: ds) ++ after)) = true) as ->.
  { cbn [truthy]. rewrite bool_decide_eq_false_2; [done|].
    by destruct before. }
  cbn [negb]. rewrite search_suffixedCount_none.
  - rewrite search_digitRun by done.
    set (m := <[O := _]> _).
    assert (group 1 m = d :: ds) as -> by (unfold group, m; by simplify_map_eq).
    clear m. rewrite parseInt_digits by done.
    rewrite parseInt_whole; [done|]. split; [apply decimal_nonneg | done].
  - rewrite !elem_of_app in *. intros [?|[?|?]]; [| |]; try tauto.
    by apply (Hdigits 75); [left|].
  - rewrite !elem_of_app in *. intros [?|[?|?]]; [| |]; try tauto.
    by apply (Hdigits 77); [right|].
Qed.

Lemma convertReviewsToNumeric_plain_witness :
  convertReviewsToNumeric (VString (js "(" ++ js "457" ++ js " reviews)"))
  = Return (Int 457).
Proof.
  apply (convertReviewsToNumeric_plain (js "(") (js "457") (js " reviews)"));
    [by apply (bool_decide_unpack _) | discriminate
    | by apply (bool_decide_unpack _) | by intros c [= <-]
    | by apply (bool_decide_unpack _) | by apply (bool_decide_unpack _)
    | by vm_compute].
Defined.

Lemma trimStart_fixed s :
  (∀ c, head s = Some c → isWhiteSpace c = false) → trimStart s = s.
Proof. destruct s as [|c s]; cbn; [done|]. intros Hc. by rewrite Hc. Qed.

Lemma trim_fixed s : trimmed s → trim s = s.
Proof.
  intros [Hhead Hlast]. unfold trim, trimEnd.
  rewrite (trimStart_fixed s Hhead), trimStart_fixed.
  - apply reverse_involutive.
  - intros c. rewrite head_reverse. apply Hlast.
Qed.

Lemma trim_part s : ∃ before after, s = before ++ trim s ++ after.
Proof.
  destruct (trimStart_suffix s) as [before Hs].
  destruct (trimEnd_prefix (trimStart s)) as [after Ht].
  exists before, after. unfold trim. by rewrite <- Ht.
Qed.

(** On every string [cleanSkills] returns a trimmed, contiguous part of the
    string, and a string that is already trimmed and does not start with
    the label comes back as it is. *)
Theorem cleanSkills_clean (text : jsstring) :
  (∃ skills before after,
      cleanSkills (VString text) = Return skills
      ∧ trimmed skills ∧ text = before ++ skills ++ after)
  ∧ (trimmed text → startsWith skillsLabel text = false →
     cleanSkills (VString text) = Return text).
Proof.
  unfold cleanSkills, slice. split.
  - destruct (startsWith skillsLabel text).
    + destruct (trim_part (drop (length skillsLabel) text))
        as (before & after & Hpart).
      exists (trim (drop (length skillsLabel) text)),
             (take (length skillsLabel) text ++ before), after.
      split; [done|]. split; [apply trim_trimmed|].
      rewrite <- app_assoc, <- Hpart. by rewrite take_drop.
    + destruct (trim_part text) as (before & after & Hpart).
      exists (trim text), before, after. eauto using trim_trimmed.
  - intros Htrimmed ->. by rewrite trim_fixed.
Qed.

Lemma cleanSkills_clean_witness :
  cleanSkills (VString (js "Python, SQL")) = Return (js "Python, SQL").
Proof.
  destruct (cleanSkills_clean (js "Python, SQL")) as [_ Hfixed].
  apply Hfixed; [|reflexivity].
  split; intros c [= <-]; reflexivity.
Defined.

Lemma metadataSeparator_units : metadataSeparator = [32; 194; 183; 32].
Proof. reflexivity. Qed.

Lemma no_separator_here (a rest : jsstring) :
  194 ∉ a → head rest ≠ Some 194 → a ≠ [] →
  startsWith metadataSeparator (a ++ rest) = false.
Proof.
  rewrite metadataSeparator_units.
  intros Ha Hrest Hne. destruct a as [|c [|y a]]; [done| |].
  - destruct rest as [|y rest]; cbn [app startsWith];
      [apply andb_false_r|].
    destruct (N.eqb_spec 194 y) as [<-|_]; [done|]. apply andb_false_r.
  - cbn [app startsWith].
    destruct (N.eqb_spec 194 y) as [<-|_]; [|apply andb_false_r].
    exfalso. apply Ha. right. left.
Qed.

Lemma split_from_skip sep k : ∀ cur passed rest,
  length passed = k →
  split_from sep k cur (passed ++ rest) = split_from sep 0 cur rest.
Proof.
  induction k as [|k IH]; intros cur [|c passed] rest; try done.
  cbn. intros [= Hlen]. by apply IH.
Qed.

Lemma split_from_hit (c : N) (sep' cur rest : jsstring) :
  split_from (c :: sep') 0 cur ((c :: sep') ++ rest)
  = cur :: split_from (c :: sep') 0 [] rest.
Proof.
  cbn [app split_from].
  change (c :: sep' ++ rest) with ((c :: sep') ++ rest).
  rewrite startsWith_app. f_equal.
  apply split_from_skip. cbn. lia.
Qed.

Lemma split_from_piece (a : jsstring) : ∀ cur rest,
  194 ∉ a →
  split_from metadataSeparator 0 cur (a ++ metadataSeparator ++ rest)
  = (cur ++ a) :: split_from metadataSeparator 0 [] rest.
Proof.
  induction a as [|c a IH]; intros cur rest Ha.
  - rewrite app_nil_r, metadataSeparator_units. apply split_from_hit.
  - change ((c :: a) ++ metadataSeparator ++ rest)
      with (c :: (a ++ metadataSeparator ++ rest)).
    cbn [split_from].
    change (c :: (a ++ metadataSeparator ++ rest))
      with ((c :: a) ++ (metadataSeparator ++ rest)).
    rewrite no_separator_here; [|done|by vm_compute|done].
    rewrite IH, <- app_assoc; [done|]. intros Hin. apply Ha. by right.
Qed.

Lemma split_from_last (a : jsstring) : ∀ cur,
  194 ∉ a → split_from metadataSeparator 0 cur a = [cur ++ a].
Proof.
  induction a as [|c a IH]; intros cur Ha; [by rewrite app_nil_r|].
  cbn [split_from].
  rewrite <- (app_nil_r (c :: a)) at 1.
  rewrite no_separator_here; [|done..].
  rewrite IH, <- app_assoc; [done|]. intros Hin. apply Ha. by right.
Qed.

Lemma split_join (parts : list jsstring) :
  parts ≠ [] → Forall (λ part, 194 ∉ part) parts →
  split metadataSeparator (join metadataSeparator parts) = parts.
Proof.
  unfold split. induction parts as [|part [|next parts] IH]; [done| |].
  - intros _ [Hpart _]%Forall_cons. cbn. by rewrite split_from_last.
  - intros _ [Hpart Hrest]%Forall_cons.
    change (join metadataSeparator (part :: next :: parts))
      with (part ++ metadataSeparator ++ join metadataSeparator (next :: parts)).
    rewrite split_from_piece by done. cbn [app]. f_equal. by apply IH.
Qed.

(** A text made of parts joined by the separator of the source comes apart
    again, when no part holds the code unit U+00C2: the first three parts
    are the level, the type and the duration, a missing part is empty and
    further parts are dropped. *)
Theorem extractMetadata_of_join (parts : list jsstring) :
  Forall (λ part, 194 ∉ part) parts →
  join metadataSeparator parts ≠ [] →
  extractMetadata (VString (join metadataSeparator parts))
  = Return (default [] (parts !! 0%nat), default [] (parts !! 1%nat),
            default [] (parts !! 2%nat)).
Proof.
  intros Hparts Htext. unfold extractMetadata.
  assert (truthy (VString (join metadataSeparator parts)) = true) as ->.
  { cbn. by rewrite bool_decide_eq_false_2. }
  cbn [negb]. rewrite split_join; [|by intros ->|done].
  unfold orElse. by repeat destruct (default _ _).
Qed.

Lemma extractMetadata_of_join_witness :
  extractMetadata
    (VString (join metadataSeparator
                [js "Beginner"; js "Course"; js "1 - 3 Months"; js "more"]))
  = Return (js "Beginner", js "Course", js "1 - 3 Months")
  ∧ extractMetadata (VString (join metadataSeparator [js "Beginner"]))
    = Return (js "Beginner", [], []).
Proof.
  split.
  - apply (extractMetadata_of_join
             [js "Beginner"; js "Course"; js "1 - 3 Months"; js "more"]);
      [by apply (bool_decide_unpack _) | discriminate].
  - apply (extractMetadata_of_join [js "Beginner"]);
      [by apply (bool_decide_unpack _) | discriminate].
Defined.

(** ** The vocabulary and the rows *)

(** Two lists of records that carry the same skills have the same
    vocabulary: neither the order of the records nor a repeated skill
    changes the columns. *)
Theorem uniqueSkillsArray_same_skills (courses courses' : list course) :
  (∀ skill, (∃ c, c ∈ courses ∧ skill ∈ courseSkills c)
            ↔ (∃ c, c ∈ courses' ∧ skill ∈ courseSkills c)) →
  uniqueSkillsArray courses = uniqueSkillsArray courses'.
Proof.
  intros Hsame.
  apply (StronglySorted_unique JsString.le);
    [apply sorted_uniqueSkillsArray .. |].
  apply NoDup_Permutation; [apply NoDup_uniqueSkillsArray .. |].
  intros skill. rewrite !elem_of_uniqueSkillsArray. apply Hsame.
Qed.

Lemma uniqueSkillsArray_same_skills_witness :
  uniqueSkillsArray exampleCourses
  = uniqueSkillsArray (bareCourse [] (js "Python , SQL,Python")
                       :: reverse exampleCourses).
Proof.
  apply uniqueSkillsArray_same_skills. intros skill.
  rewrite <- !elem_of_uniqueSkillsArray. by vm_compute.
Defined.







(** The header names no column twice exactly when no record has a skill
    called like one of the fixed columns. *)
Theorem header_distinct (courses : list course) :
  NoDup (fixedColumns ++ uniqueSkillsArray courses)
  ↔ ∀ col c, col ∈ fixedColumns → c ∈ courses → col ∉ courseSkills c.
Proof.
  rewrite NoDup_app. split.
  - intros (_ & Hdisjoint & _) col c Hcol Hc Hskill.
    apply (Hdisjoint col Hcol), elem_of_uniqueSkillsArray. eauto.
  - intros Hdisjoint. split; [by apply (bool_decide_unpack _)|].
    split; [|apply NoDup_uniqueSkillsArray].
    intros col Hcol (c & Hc & Hskill)%elem_of_uniqueSkillsArray.
    by apply (Hdisjoint col c).
Qed.

Lemma header_distinct_witness :
  NoDup (fixedColumns ++ uniqueSkillsArray exampleCourses)
  ∧ ¬ NoDup (fixedColumns
             ++ uniqueSkillsArray [bareCourse [] (js "Python, title")]).
Proof.
  split.
  - apply header_distinct. intros col c Hcol Hc. revert col Hcol.
    apply Forall_forall. revert c Hc. apply Forall_forall.
    by apply (bool_decide_unpack _).
  - intros Hnodup.
    apply (proj1 (header_distinct [bareCourse [] (js "Python, title")])
             Hnodup (js "title") (bareCourse [] (js "Python, title")));
      [compute_done | by left | compute_done].
Defined.

(** ** The scroll loop *)

Lemma scrollLoop_more_fuel fuel : ∀ lastHeight d d' extra,
  scrollLoop fuel lastHeight d = Some d' →
  scrollLoop (fuel + extra) lastHeight d = Some d'.
Proof.
  induction fuel as [|fuel IH]; intros lastHeight d d' extra; [done|].
  cbn. destruct (_ =? _)%Z; [done | apply IH].
Qed.

(** Once the loop has ended within some number of iterations, allowing it
    more changes nothing: it ends in the same session, whatever session it
    started in. *)
Theorem loadPage_more_fuel (fuel extra : nat) (d d' : session) :
  loadPage fuel d = Some d' → loadPage (fuel + extra) d = Some d'.
Proof.
  unfold loadPage. destruct (scrollHeight d) as [lastHeight d0].
  destruct (scrollLoop fuel lastHeight d0) as [d1|] eqn:Hloop; [|done].
  intros [= <-]. by rewrite (scrollLoop_more_fuel _ _ _ d1).
Qed.

Lemma loadPage_more_fuel_witness :
  loadPage (2 + 40) (fresh (extentsFrom [100; 200; 200]%Z everGrowing))
  = loadPage 2 (fresh (extentsFrom [100; 200; 200]%Z everGrowing)).
Proof.
  apply (loadPage_more_fuel 2 40
           (fresh (extentsFrom [100; 200; 200]%Z everGrowing))).
  reflexivity.
Defined.

Lemma scrollLoop_ended (extents : nat → Z) fuel : ∀ m t d',
  scrollLoop fuel (extents m) (sessionAt extents (S m) t) = Some d' →
  ∃ k, (m ≤ k < m + fuel)%nat
    ∧ extents (S k) = extents k
    ∧ (∀ i, m ≤ i < k → extents (S i) ≠ extents i)%nat
    ∧ d' = sessionAt extents (S (S k))
             (t ++ rounds extents (S m) (S (k - m))).
Proof.
  induction fuel as [|fuel IH]; intros m t d'; [done|].
  cbn. destruct (Z.eqb_spec (extents (S m)) (extents m)) as [Heq|Hne].
  - intros [= <-]. exists m. split; [lia|]. split; [done|].
    split; [intros i Hi; lia|].
    replace (m - m)%nat with O by lia.
    unfold sessionAt, rounds. cbn. by rewrite <- !app_assoc.
  - fold (sessionAt extents (S (S m))
            (((t ++ [ScrollToBottom]) ++ [Sleep 1000])
             ++ [Measure (extents (S m))])).
    intros (k & Hk & Heq & Hfirst & ->)%IH.
    exists k. split; [lia|]. split; [done|]. split.
    + intros i Hi. destruct (decide (i = m)) as [->|]; [done|].
      apply Hfirst. lia.
    + f_equal. rewrite <- !app_assoc. cbn.
      replace (k - m)%nat with (S (k - S m)) by lia. reflexivity.
Qed.

(** The loop ends only on a repeated measurement: if loading ends, then
    some measurement equals the one before it, no earlier one does, and the
    session has looked at the page exactly up to that measurement, scrolling
    and pausing once before each measurement after the first. *)
Theorem loadPage_ended (extents : nat → Z) (fuel : nat) (d' : session) :
  loadPage fuel (fresh extents) = Some d' →
  ∃ k, (k < fuel)%nat
    ∧ extents (S k) = extents k
    ∧ (∀ i, i < k → extents (S i) ≠ extents i)%nat
    ∧ measured d' = (k + 2)%nat
    ∧ trace d' = Measure (extents 0%nat)
                 :: rounds extents 1 (S k) ++ [PageSource].
Proof.
  unfold loadPage, fresh, scrollHeight. cbn.
  fold (sessionAt extents 1 [Measure (extents 0%nat)]).
  destruct (scrollLoop fuel _ _) as [d1|] eqn:Hloop; [|done].
  intros [= <-].
  apply scrollLoop_ended in Hloop as (k & Hk & Heq & Hfirst & ->).
  exists k. split; [lia|]. split; [done|].
  split; [intros i Hi; apply Hfirst; lia|].
  replace (k - 0)%nat with k by lia. cbn. split; [lia | done].
Qed.

Lemma loadPage_ended_witness :
  ∃ k, (k < 7)%nat
    ∧ extentsFrom [100; 200; 200]%Z everGrowing (S k)
      = extentsFrom [100; 200; 200]%Z everGrowing k.
Proof.
  destruct (loadPage_ended (extentsFrom [100; 200; 200]%Z everGrowing) 7
              {| extent := extentsFrom [100; 200; 200]%Z everGrowing;
                 measured := 3;
                 trace := [Measure 100; ScrollToBottom; Sleep 1000; Measure 200;
                           ScrollToBottom; Sleep 1000; Measure 200;
                           PageSource] |} eq_refl)
    as (k & Hk & Heq & _).
  by exists k.
Defined.

(** ** The record builder and the end of [main] *)

Lemma mapM_Forall2 {A B} (f : A → completion B) (l : list A) : ∀ bs,
  mapM f l = Return bs → Forall2 (λ a b, f a = Return b) l bs.
Proof.
  induction l as [|a l IH]; intros bs; cbn.
  - intros [= <-]. constructor.
  - destruct (f a) as [b|e] eqn:Ha; [|done]. cbn.
    destruct (mapM f l) as [bs'|e]; [|done]. cbn.
    intros [= <-]. constructor; [done | by apply IH].
Qed.

Lemma cleanSkills_string_trimmed (text skills : jsstring) :
  cleanSkills (VString text) = Return skills → trimmed skills.
Proof.
  unfold cleanSkills. destruct (startsWith _ _); intros [= <-];
    apply trim_trimmed.
Qed.

Lemma extracted_records_shape {selection : Type} `{Cheerio selection}
  (document : selection) :
  ∃ courses, extractCourseInfo document = Return courses
    ∧ Forall2 (λ card c, extractCard card = Return c)
        (elements (find document (js "div.cds-ProductCard-base"))) courses.
Proof.
  unfold extractCourseInfo.
  destruct (mapM_returns extractCard (λ _, True)
              (elements (find document (js "div.cds-ProductCard-base"))))
    as (courses & Hcourses & _).
  { intros card. destruct (extractCard_fields card) as (c & Hc & _). eauto. }
  exists courses. split; [exact Hcourses | by apply mapM_Forall2].
Qed.

Section Catalogue.
Context {selection : Type} `{Cheerio selection}.

(** There is one record per card, in the order of the cards, and it is the
    record the builder makes of that card alone. *)
Theorem extractCourseInfo_one_per_card (document : selection) :
  let cards := elements (find document (js "div.cds-ProductCard-base")) in
  ∃ courses, extractCourseInfo document = Return courses
    ∧ length courses = length cards
    ∧ ∀ i card, cards !! i = Some card →
        ∃ c, courses !! i = Some c ∧ extractCard card = Return c.
Proof.
  cbv zeta.
  destruct (extracted_records_shape document) as (courses & Hcourses & Hall).
  exists courses. split; [exact Hcourses|].
  split; [symmetry; by eapply Forall2_length|].
  intros i card Hcard.
  destruct (Forall2_lookup_l _ _ _ _ _ Hall Hcard) as (c & Hc & Hmade).
  eauto.
Qed.

(** Whatever the card holds, the record's rating is never empty, its title,
    partner, rating and skills are trimmed, and its two flags are "plus" or
    "-" and "degree" or "-". *)
Theorem extractCard_shape (card : selection) :
  ∃ c, extractCard card = Return c
    ∧ Course.rating c ≠ []
    ∧ trimmed (Course.title c) ∧ trimmed (Course.partner c)
    ∧ trimmed (Course.rating c) ∧ trimmed (Course.skills c)
    ∧ Course.plus c ∈ [js "plus"; js "-"]
    ∧ Course.degree c ∈ [js "degree"; js "-"].
Proof.
  destruct (extractCard_fields card)
    as (c & Hc & Htitle & Hpartner & Hrating & _ & Hskills & _ & _
        & Hplus & Hdegree).
  exists c. split; [exact Hc|].
  assert (trimmed (js "-")) as Hdash by (split; intros ? [= <-]; reflexivity).
  rewrite Htitle, Hpartner, Hrating, Hplus, Hdegree. unfold orElse.
  pose proof (trim_trimmed (text (find card (js "span.css-4s48ix")))) as Hr.
  split; [by destruct (trim (text (find card (js "span.css-4s48ix"))))|].
  split; [apply trim_trimmed|]. split; [apply trim_trimmed|].
  split; [by destruct (trim (text (find card (js "span.css-4s48ix"))))|].
  split; [by eapply cleanSkills_string_trimmed|].
  split; [destruct (bool_decide _) | destruct (_ && _)]; compute_done.
Qed.


End Catalogue.

Lemma extractCourseInfo_one_per_card_witness :
  ∃ courses,
    extractCourseInfo
      (Tree.document
         [exampleCard (js "12K reviews") (js "Python") (js "Beginner");
          emptyCard]) = Return courses
    ∧ length courses = 2%nat.
Proof.
  destruct (extractCourseInfo_one_per_card
              (Tree.document
                 [exampleCard (js "12K reviews") (js "Python") (js "Beginner");
                  emptyCard]))
    as (courses & Hcourses & Hlength & _).
  exists courses. split; [exact Hcourses | exact Hlength].
Defined.

